(** * amphora-rss: the RSS renderer, embedded and verified

    The development follows the current revision of [index.js] (the one that
    carries the [docsUrl] / [generatorMessage] constants and the
    [elevateChannelCategories] switch).  JavaScript values are an inductive
    type, the caller's FeedItem arrays live in a store because [wrapInItem]
    splices them in place, the [res] object and the logger are a trace of
    calls, and the highland pipeline is a list of stream events. *)

From Stdlib Require Import ZArith List String Ascii Bool Lia.
From stdpp Require Import base gmap strings list fin_maps pretty functions.

Set Warnings "-register-all".

Local Open Scope string_scope.
Local Open Scope list_scope.
Local Open Scope Z_scope.

(** ** JavaScript values *)

(** Numbers are the integer-valued ones: [VNum n] is the number a literal
    [n] denotes, the double nearest to [n]; [NaN] and fractions do not occur
    in the data the renderer inspects.  An object is the list of its own
    enumerable properties in insertion order. *)
Inductive value : Type :=
| VUndef
| VNull
| VBool (b : bool)
| VNum (n : Z)
| VStr (s : string)
| VArr (xs : list value)
| VObj (fields : list (string * value)).

(** [!!v] of JavaScript: [undefined], [null], [false], [0] and [''] are falsy. *)
Definition truthy (v : value) : bool :=
  match v with
  | VUndef | VNull => false
  | VBool b => b
  | VNum n => negb (n =? 0)
  | VStr s => negb (String.eqb s "")
  | VArr _ | VObj _ => true
  end.

(** [v == null]. *)
Definition nullish (v : value) : bool :=
  match v with
  | VUndef | VNull => true
  | _ => false
  end.

(** [Array.prototype.join] on already converted elements. *)
Definition join (sep : string) (parts : list string) : string :=
  String.concat sep parts.

(** The double nearest to a non-negative integer, ties to the even
    significand; [None] past the largest double, where the number is
    [Infinity]. *)
Definition nearest_double (a : Z) : option Z :=
  if a <? 2 ^ 53 then Some a
  else
    let e := Z.log2 a - 52 in
    let q := Z.shiftr a e in
    let r := a - Z.shiftl q e in
    let half := Z.shiftl 1 (e - 1) in
    let q' := if r <? half then q
              else if half <? r then q + 1
              else if Z.even q then q else q + 1 in
    if Z.shiftl q' e <? 2 ^ 1024 then Some (Z.shiftl q' e) else None.

(** The literal [c] denotes the double [x]. *)
Definition reads_as (x c : Z) : bool :=
  match nearest_double c with
  | Some y => y =? x
  | None => false
  end.

(** The decimal with the fewest significant digits that reads back as the
    double [x], the closest to [x] if two have as few (the even one on a
    tie): with the last [exponent] digits zero, the candidates are the two
    multiples of [10^exponent] around [x]. *)
Fixpoint shortest (x : Z) (exponent : nat) : Z :=
  match exponent with
  | O => x
  | S lower =>
      let p := 10 ^ Z.of_nat exponent in
      let below := x / p * p in
      let above := below + p in
      match reads_as x below, reads_as x above with
      | true, true =>
          if x - below <? above - x then below
          else if above - x <? x - below then above
          else if Z.even (x / p) then below else above
      | true, false => below
      | false, true => above
      | false, false => shortest x lower
      end
  end.

(** A digit string without its trailing zeros. *)
Fixpoint significand (digits : string) : string :=
  match digits with
  | EmptyString => EmptyString
  | String c rest =>
      match significand rest with
      | EmptyString => if Ascii.eqb c "0"%char then EmptyString else String c EmptyString
      | kept => String c kept
      end
  end.

(** [String(n)] for a number: the shortest digits that read back as the
    same double, zero-padded up to 21 digits and in exponent form beyond. *)
Definition number_toString (n : Z) : string :=
  if n =? 0 then "0"
  else
    let sign := if n <? 0 then "-" else "" in
    match nearest_double (Z.abs n) with
    | None => sign +:+ "Infinity"
    | Some x =>
        let digits := pretty (shortest x (String.length (pretty x) - 1)) in
        if (String.length digits <=? 21)%nat then sign +:+ digits
        else
          let exponent := pretty (Z.of_nat (String.length digits) - 1) in
          match significand digits with
          | String c EmptyString => sign +:+ String c ("e+" +:+ exponent)
          | String c rest => sign +:+ String c ("." +:+ rest +:+ "e+" +:+ exponent)
          | EmptyString => sign +:+ digits
          end
    end.

(** [String(v)]; an array is the comma-join of its elements, where [null] and
    [undefined] elements print as the empty string. *)
Fixpoint toString (v : value) : string :=
  match v with
  | VUndef => "undefined"
  | VNull => "null"
  | VBool true => "true"
  | VBool false => "false"
  | VNum n => number_toString n
  | VStr s => s
  | VArr xs =>
      join "," (List.map (fun x => if nullish x then "" else toString x) xs)
  | VObj _ => "[object Object]"
  end.

(** [xs.join(sep)] on an array of values. *)
Definition array_join (sep : string) (xs : list value) : string :=
  join sep (List.map (fun x => if nullish x then "" else toString x) xs).

(** Own property lookup in an object literal. *)
Fixpoint lookup_field (k : string) (fs : list (string * value)) : option value :=
  match fs with
  | [] => None
  | (k', v) :: rest => if String.eqb k k' then Some v else lookup_field k rest
  end.

(** [v[k]] for a receiver that is neither [null] nor [undefined], at the keys
    the renderer reads ([image], [category], [url]): only an object can own
    them, every other receiver yields [undefined]. *)
Definition get (v : value) (k : string) : value :=
  match v with
  | VObj fs => default VUndef (lookup_field k fs)
  | _ => VUndef
  end.

(** [{ k: v }]. *)
Definition tag (k : string) (v : value) : value := VObj [(k, v)].

(** ** Errors *)

Inductive Error : Type :=
| TypeError (prop : string) (receiver : value)
| MissingRequiredFieldError
| EmptyPipelineResultError
| MultipleValuesError
| SerializerError (text : string).

Definition message (e : Error) : string :=
  match e with
  | TypeError p r => "Cannot read property '" +:+ p +:+ "' of " +:+ toString r
  | MissingRequiredFieldError =>
      "A `title`, `description` and `link` property are all required in the `meta` object for the RSS renderer"
  | EmptyPipelineResultError => "No data sent to XML renderer, cannot respond"
  | MultipleValuesError => "toCallback called on stream emitting multiple values"
  | SerializerError text => text
  end.

Inductive result (A : Type) : Type :=
| Ok (a : A)
| Throw (e : Error).
Arguments Ok {A} a.
Arguments Throw {A} e.

Definition bind {A B : Type} (r : result A) (k : A -> result B) : result B :=
  match r with
  | Ok a => k a
  | Throw e => Throw e
  end.

Notation "'let*' x ':=' r 'in' k" := (bind r (fun x => k))
  (at level 10, x pattern, r at level 200, k at level 200).

(** [item[element]] inside the predicate handed to lodash: reading a property
    of [null] or [undefined] throws. *)
Definition member (v : value) (k : string) : result value :=
  if nullish v then Throw (TypeError k v) else Ok (get v k).

(** ** lodash helpers *)

(** [_findIndex(array, item => item[element])] started at index [i]: the index
    of the first element whose [element] property is truthy, [-1] when there
    is none; the predicate's exception escapes. *)
Fixpoint findIndex_from (i : Z) (array : list value) (element : string) : result Z :=
  match array with
  | [] => Ok (-1)
  | x :: rest =>
      let* p := member x element in
      if truthy p then Ok i else findIndex_from (i + 1) rest element
  end.

Definition findIndexOfElementInArray (array : list value) (element : string) : result Z :=
  findIndex_from 0 array element.

(** [array[i]] for an integer index. *)
Definition index (array : list value) (i : Z) : value :=
  if i <? 0 then VUndef else default VUndef (array !! Z.to_nat i).

(** [_get(v, 'image.url')]: lodash first tries the whole path as one key when
    the object owns a property of that name, and walks [image] then [url]
    otherwise, stopping at [null] / [undefined]. *)
Definition get_image_url (v : value) : value :=
  if nullish v then VUndef
  else
    match v with
    | VObj fs =>
        match lookup_field "image.url" fs with
        | Some direct => direct
        | None =>
            let img := get v "image" in
            if nullish img then VUndef else get img "url"
        end
    | _ => VUndef
    end.

(** [entry.splice(i, 1)] for [0 <= i]. *)
Definition splice1 (entry : list value) (i : Z) : list value :=
  take (Z.to_nat i) entry ++ drop (S (Z.to_nat i)) entry.

(** ** The store of FeedItem arrays *)

Definition loc := nat.

(** The contents of every array the caller's [feed] refers to. *)
Definition heap := loc -> list value.

(** [{ item: entry }]: the wrapper keeps the reference to the caller's array. *)
Record wrapped : Type := Wrap { item : loc }.

(** [wrapInItem(entry)]. *)
Definition wrapInItem (entry : loc) (σ : heap) : result (wrapped * heap) :=
  if negb (length (σ entry) =? 0)%nat then
    let* imageIndex := findIndexOfElementInArray (σ entry) "image" in
    if negb (imageIndex =? -1) then
      Ok (Wrap entry, <[entry := splice1 (σ entry) imageIndex]> σ)
    else Ok (Wrap entry, σ)
  else Ok (Wrap entry, σ).

(** ** Category elevation *)

(** [entry && entry.category]. *)
Definition has_category (entry : value) : bool :=
  truthy entry && truthy (get entry "category").

(** The string one wrapped item contributes: its truthy [category] values,
    comma-joined. *)
Definition item_categories (entries : list value) : string :=
  array_join "," (List.map (fun entry => get entry "category")
                           (List.filter has_category entries)).

(** [elevateCategory(group)]; the arrays are read through the store. *)
Definition elevateCategory (σ : heap) (group : list wrapped) : list value :=
  List.map (fun s => tag "category" (VStr s))
    (List.filter (fun s => truthy (VStr s))
       (List.map (fun w => item_categories (σ (item w))) group)).

(** ** Metadata assembly *)

Definition docsUrl : string := "http://blogs.law.harvard.edu/tech/rss".
Definition generatorMessage : string := "Feed delivered by Clay".

(** The [meta] object: an absent property is [VUndef]. *)
Record Meta : Type := {
  title : value;
  description : value;
  link : value;
  copyright : value;
  generator : value;
  docs : value;
  opt : value;
  image : value;
  elevateChannelCategories : value
}.

(** [new Date()] as the assembler uses it: the RFC 822 text that [format]
    returns, and [getFullYear()]. *)
Record clock : Type := {
  rfc822 : string;
  getFullYear : Z
}.

(** A destructuring default [{ x = d }] applies to [undefined] only. *)
Definition or_default (v d : value) : value :=
  match v with
  | VUndef => d
  | _ => v
  end.

(** [a || b]. *)
Definition or_else (a b : value) : value := if truthy a then a else b.

(** An element of the channel array: a plain value, or a wrapped item that
    still refers to the caller's array. *)
Inductive node : Type :=
| NTag (v : value)
| NItem (w : wrapped).

(** [siteMeta.concat(v)]: an array argument is spread, anything else is
    appended as one element. *)
Definition concat_value (siteMeta : list node) (v : value) : list node :=
  match v with
  | VArr ys => siteMeta ++ List.map NTag ys
  | _ => siteMeta ++ [NTag v]
  end.

(** [formatImageTag(url, link, title)]. *)
Definition formatImageTag (url link title : value) : value :=
  tag "image" (VArr [tag "url" url; tag "link" link; tag "title" title]).

(** [feedMetaTags(meta)(group)], evaluated at time [now]. *)
Definition feedMetaTags (m : Meta) (now : clock) (σ : heap) (group : list wrapped)
  : result (list node) :=
  let generator := or_default (generator m) (VStr generatorMessage) in
  let docs := or_default (docs m) (VStr docsUrl) in
  let elevateChannelCategories := or_default (elevateChannelCategories m) (VBool true) in
  if negb (truthy (title m)) || negb (truthy (description m)) || negb (truthy (link m))
  then Throw MissingRequiredFieldError
  else
    let siteMeta :=
      [ NTag (tag "title" (title m));
        NTag (tag "description" (description m));
        NTag (tag "link" (link m));
        NTag (tag "lastBuildDate" (VStr (rfc822 now)));
        NTag (tag "docs" docs);
        NTag (tag "copyright" (or_else (copyright m) (VNum (getFullYear now))));
        NTag (tag "generator" generator) ] in
    let siteMeta := if truthy (opt m) then concat_value siteMeta (opt m) else siteMeta in
    let siteMeta :=
      if truthy (image m)
      then siteMeta ++ [NTag (formatImageTag (get (image m) "url") (link m) (title m))]
      else siteMeta in
    let channelCats :=
      if truthy elevateChannelCategories then elevateCategory σ group else [] in
    Ok (siteMeta ++ List.map NTag channelCats ++ List.map NItem group).

(** ** The envelope *)

Definition defaultNamespaces : gmap string value :=
  list_to_map
    [ ("version", VStr "2.0");
      ("xmlns:content", VStr "http://purl.org/rss/1.0/modules/content/");
      ("xmlns:mi", VStr "http://schemas.ingestion.microsoft.com/common/");
      ("xmlns:dc", VStr "http://purl.org/dc/elements/1.1/");
      ("xmlns:media", VStr "http://search.yahoo.com/mrss/") ].

(** [Object.assign(target, source)]: every property of [source] is written
    over [target]. *)
Definition Object_assign (target source : gmap string value) : gmap string value :=
  source ∪ target.

(** [cleanNullValues(obj)]: every property with a falsy value is deleted. *)
Definition cleanNullValues (obj : gmap string value) : gmap string value :=
  filter (λ kv, truthy kv.2 = true) obj.

(** [{ rss: [{ _attr }, { channel }] }]. *)
Record rss : Type := {
  _attr : gmap string value;
  channel : list node
}.

(** [wrapInTopLevel(data, attr = {})]; [None] is an omitted [attr]. *)
Definition wrapInTopLevel (data : list node) (attr : option (gmap string value)) : rss :=
  {| _attr := cleanNullValues (Object_assign defaultNamespaces (default ∅ attr));
     channel := data |}.

(** ** The response object and the logger *)

(** What is handed to [xml(...)]: the document with every wrapped item read
    through the store at the moment of serialization. *)
Inductive element : Type :=
| Plain (v : value)
| ItemElement (entries : list value).

Record document : Type := {
  root_attr : gmap string value;
  elements : list element
}.

Definition resolve_node (σ : heap) (n : node) : element :=
  match n with
  | NTag v => Plain v
  | NItem w => ItemElement (σ (item w))
  end.

Definition resolve (σ : heap) (data : rss) : document :=
  {| root_attr := _attr data;
     elements := List.map (resolve_node σ) (channel data) |}.

(** [xml(data, { declaration: true, indent: '\t' })]: the serializer of the
    [xml] package.  The package is not part of the sources, so the serializer
    is a parameter of [render]: for every document it gives the text, or the
    exception it throws on that document. *)
Definition serializer : Type := document -> result string.

(** The calls the renderer makes on [res] and on [log], in order;
    [res_send body] is [res.send] with the serializer's text for [body]. *)
Inductive call : Type :=
| res_status (code : Z)
| res_json (status : Z) (msg : string)
| res_type (mime : string)
| res_send (body : document)
| log_call (level : string) (msg : string) (stack_of : Error).

(** [sendError(res, e)]. *)
Definition sendError (e : Error) : list call :=
  let status := 500 in
  [ res_status status;
    res_json status (message e);
    log_call "error" (message e) e ].

(** ** The highland stream operators the renderer uses

    A stream of an array source is the list of the events it emits before
    the end marker, each an error or a value.  Every operator below forwards
    errors untouched and in order, as highland's [consume]-based operators
    do. *)
Module Highland.

Inductive event (A : Type) : Type :=
| Err (e : Error)
| Val (x : A).
Arguments Err {A} e.
Arguments Val {A} x.

Definition stream (A : Type) : Type := list (event A).

(** [h(array)]. *)
Definition of_array {A : Type} (xs : list A) : stream A := List.map Val xs.

(** [.map(f)]: an exception of [f] becomes an error event and the stream
    goes on with the next value; [f] may update the store. *)
Fixpoint map {A B S : Type} (f : A -> S -> result (B * S)) (s : stream A) (σ : S)
  : stream B * S :=
  match s with
  | [] => ([], σ)
  | Err e :: rest =>
      let '(out, σ') := map f rest σ in (Err e :: out, σ')
  | Val x :: rest =>
      match f x σ with
      | Ok (y, σ1) => let '(out, σ') := map f rest σ1 in (Val y :: out, σ')
      | Throw e => let '(out, σ') := map f rest σ in (Err e :: out, σ')
      end
  end.

Definition errors_of {A : Type} (s : stream A) : list Error :=
  omap (fun ev => match ev with Err e => Some e | Val _ => None end) s.

Definition values_of {A : Type} (s : stream A) : list A :=
  omap (fun ev => match ev with Err _ => None | Val x => Some x end) s.

(** [.collect()]: errors pass as they come, and at the end of the source
    the array of all values is emitted as one value. *)
Definition collect {A : Type} (s : stream A) : stream (list A) :=
  List.map Err (errors_of s) ++ [Val (values_of s)].

(** [.errors(handler)] with a handler that never pushes: the handler sees
    every error, in order, and only values go on. *)
Definition errors {A : Type} (s : stream A) : list Error * stream A :=
  (errors_of s, List.map Val (values_of s)).

Inductive settled (A : Type) : Type :=
| Resolved (x : option A)
| Rejected (e : Error).
Arguments Resolved {A} x.
Arguments Rejected {A} e.

(** [.toPromise(Promise)]: resolves with the single value, with
    [undefined] for a stream that ends without one, and rejects on an error
    or on a second value. *)
Definition toPromise {A : Type} (s : stream A) : settled A :=
  match s with
  | [] => Resolved None
  | Err e :: _ => Rejected e
  | Val x :: [] => Resolved (Some x)
  | Val x :: _ :: _ => Rejected MultipleValuesError
  end.

End Highland.

(** ** render *)

Record payload : Type := {
  feed : list loc;
  meta : Meta;
  attr : option (gmap string value)
}.

Definition set_image (m : Meta) (v : value) : Meta :=
  {| title := title m; description := description m; link := link m;
     copyright := copyright m; generator := generator m; docs := docs m;
     opt := opt m; image := v;
     elevateChannelCategories := elevateChannelCategories m |}.

(** The first block of [render]: when the feed is not empty, look for the
    image of [feed[0]] and store [{ url }] in the caller's [meta]. *)
Definition hoistImage (feed : list loc) (m : Meta) (σ : heap) : result Meta :=
  match feed with
  | [] => Ok m
  | first :: _ =>
      let* imageIndex := findIndexOfElementInArray (σ first) "image" in
      let url := get_image_url (index (σ first) imageIndex) in
      if truthy url then Ok (set_image m (tag "url" url)) else Ok m
  end.

(** How a call of [render] ends: with an exception thrown to the caller
    before the pipeline exists, or with the returned promise settled; in the
    second case the caller's arrays, the caller's [meta] and the calls made
    on [res] and [log] are what the caller can observe. *)
Inductive outcome : Type :=
| Thrown (e : Error)
| Settled (σ : heap) (m : Meta) (calls : list call).

(** The stream part of [render]:
    [h(feed).map(wrapInItem).collect().map(feedMetaTags(meta))
       .map(data => wrapInTopLevel(data, attr))].
    The events travel through the operators one at a time, but [collect]
    holds every wrapped item until the source has ended, so the assembler
    runs after the last [wrapInItem] and reads the arrays as the whole feed
    left them; an error event overtakes nothing that writes to [res].  The
    operators can therefore be run one after the other. *)
Definition pipeline (p : payload) (m : Meta) (now : clock) (σ : heap)
  : Highland.stream rss * heap :=
  let '(items, σ1) := Highland.map wrapInItem (Highland.of_array (feed p)) σ in
  let '(channels, σ2) :=
    Highland.map (fun group σ' => let* data := feedMetaTags m now σ' group in Ok (data, σ'))
                 (Highland.collect items) σ1 in
  Highland.map (fun data σ' => Ok (wrapInTopLevel data (attr p), σ')) channels σ2.

(** [.then(data => ...)] followed by [.catch(e => sendError(res, e))]: the
    content type is set before [xml(data, ...)] is evaluated, and an
    exception of the serializer reaches the [catch] handler like the no-data
    error does. *)
Definition respond (xml : serializer) (σ : heap) (r : Highland.settled rss)
  : list call :=
  match r with
  | Highland.Resolved (Some data) =>
      res_type "text/rss+xml"
      :: match xml (resolve σ data) with
         | Ok _ => [ res_send (resolve σ data) ]
         | Throw e => sendError e
         end
  | Highland.Resolved None => sendError EmptyPipelineResultError
  | Highland.Rejected e => sendError e
  end.

Definition render (xml : serializer) (p : payload) (now : clock) (σ : heap)
  : outcome :=
  match hoistImage (feed p) (meta p) σ with
  | Throw e => Thrown e
  | Ok m =>
      let '(s, σ') := pipeline p m now σ in
      let '(handled, s') := Highland.errors s in
      Settled σ' m
        (flat_map sendError handled ++ respond xml σ' (Highland.toPromise s'))
  end.

(** ** Earlier revisions kept in the sources

    The sources also hold two earlier revisions of the renderer.  Each is
    embedded under its own name, sharing with the current revision the
    functions whose text did not change ([elevateCategory],
    [findIndexOfElementInArray], [formatImageTag]). *)

(** The revision without the found-check in [wrapInItem] (the first half of
    [index.js]). *)
Module FirstRevision.

(** [entry.splice(i, 1)] for any integer [i]: a negative start counts from
    the end of the array. *)
Definition splice (entry : list value) (i : Z) : list value :=
  if i <? 0
  then splice1 entry (Z.max 0 (Z.of_nat (length entry) + i))
  else splice1 entry i.

(** [wrapInItem(entry)]: the splice is not guarded by the search result. *)
Definition wrapInItem (entry : loc) (σ : heap) : result (wrapped * heap) :=
  if negb (length (σ entry) =? 0)%nat then
    let* imageIndex := findIndexOfElementInArray (σ entry) "image" in
    Ok (Wrap entry, <[entry := splice (σ entry) imageIndex]> σ)
  else Ok (Wrap entry, σ).

(** The no-data error reads "send" in this revision. *)
Definition message (e : Error) : string :=
  match e with
  | EmptyPipelineResultError => "No data send to XML renderer, cannot respond"
  | _ => message e
  end.

(** [sendError(res, e)]. *)
Definition sendError (e : Error) : list call :=
  let status := 500 in
  [ res_status status;
    res_json status (message e);
    log_call "error" (message e) e ].

(** [feedMetaTags(meta)(group)]: [docs] and [generator] are defaulted with
    [||], and the categories are always elevated. *)
Definition feedMetaTags (m : Meta) (now : clock) (σ : heap) (group : list wrapped)
  : result (list node) :=
  if negb (truthy (title m)) || negb (truthy (description m)) || negb (truthy (link m))
  then Throw MissingRequiredFieldError
  else
    let siteMeta :=
      [ NTag (tag "title" (title m));
        NTag (tag "description" (description m));
        NTag (tag "link" (link m));
        NTag (tag "lastBuildDate" (VStr (rfc822 now)));
        NTag (tag "docs"
                (or_else (docs m) (VStr "http://blogs.law.harvard.edu/tech/rss")));
        NTag (tag "copyright" (or_else (copyright m) (VNum (getFullYear now))));
        NTag (tag "generator"
                (or_else (generator m) (VStr "Feed delivered by Clay"))) ] in
    let siteMeta := if truthy (opt m) then concat_value siteMeta (opt m) else siteMeta in
    let siteMeta :=
      if truthy (image m)
      then siteMeta ++ [NTag (formatImageTag (get (image m) "url") (link m) (title m))]
      else siteMeta in
    Ok (siteMeta ++ List.map NTag (elevateCategory σ group) ++ List.map NItem group).

(** [_get(v, 'url')]. *)
Definition get_url (v : value) : value :=
  if nullish v then VUndef else get v "url".

(** The first block of [render]: [feed[0][imageIndex].image] is read before
    lodash is asked for the [url]. *)
Definition hoistImage (feed : list loc) (m : Meta) (σ : heap) : result Meta :=
  match feed with
  | [] => Ok m
  | first :: _ =>
      let* imageIndex := findIndexOfElementInArray (σ first) "image" in
      let* img := member (index (σ first) imageIndex) "image" in
      let url := get_url img in
      if truthy url then Ok (set_image m (tag "url" url)) else Ok m
  end.

Definition pipeline (p : payload) (m : Meta) (now : clock) (σ : heap)
  : Highland.stream rss * heap :=
  let '(items, σ1) := Highland.map wrapInItem (Highland.of_array (feed p)) σ in
  let '(channels, σ2) :=
    Highland.map (fun group σ' => let* data := feedMetaTags m now σ' group in Ok (data, σ'))
                 (Highland.collect items) σ1 in
  Highland.map (fun data σ' => Ok (wrapInTopLevel data (attr p), σ')) channels σ2.

Definition respond (xml : serializer) (σ : heap) (r : Highland.settled rss)
  : list call :=
  match r with
  | Highland.Resolved (Some data) =>
      res_type "text/rss+xml"
      :: match xml (resolve σ data) with
         | Ok _ => [ res_send (resolve σ data) ]
         | Throw e => sendError e
         end
  | Highland.Resolved None => sendError EmptyPipelineResultError
  | Highland.Rejected e => sendError e
  end.

Definition render (xml : serializer) (p : payload) (now : clock) (σ : heap)
  : outcome :=
  match hoistImage (feed p) (meta p) σ with
  | Throw e => Thrown e
  | Ok m =>
      let '(s, σ') := pipeline p m now σ in
      let '(handled, s') := Highland.errors s in
      Settled σ' m
        (flat_map sendError handled ++ respond xml σ' (Highland.toPromise s'))
  end.

End FirstRevision.

(** The podcast revision (the iTunes tags; no image support). *)
Module PodcastRevision.

(** [contactInfo(name, email)]. *)
Definition contactInfo (name email : value) : list value :=
  [ tag "itunes:name" name; tag "itunes:email" email ].

(** [feedMetaTags(meta)(group)]. *)
Definition feedMetaTags (m : Meta) (now : clock) (σ : heap) (group : list wrapped)
  : result (list node) :=
  if negb (truthy (title m)) || negb (truthy (description m)) || negb (truthy (link m))
  then Throw MissingRequiredFieldError
  else
    let siteMeta :=
      [ NTag (tag "title" (title m));
        NTag (tag "description" (description m));
        NTag (tag "link" (link m));
        NTag (tag "lastBuildDate" (VStr (rfc822 now)));
        NTag (tag "docs"
                (or_else (docs m) (VStr "http://blogs.law.harvard.edu/tech/rss")));
        NTag (tag "copyright" (or_else (copyright m) (VNum (getFullYear now))));
        NTag (tag "generator"
                (or_else (generator m) (VStr "Feed delivered by Clay")));
        NTag (tag "language" (VStr "en-us"));
        NTag (tag "itunes:subtitle" (description m));
        NTag (tag "itunes:author" (title m));
        NTag (tag "itunes:summary" (description m));
        NTag (tag "itunes:type" (VStr "episodic"));
        NTag (tag "itunes:owner"
                (VArr (contactInfo (title m) (VStr "neil.janowitz@vulture.com"))));
        NTag (tag "itunes:image"
                (VStr "http://pixel.nymag.com/imgs/daily/vulture/2018/08/21/Vulture3000x3000.jpg"));
        NTag (tag "itunes:category"
                (VArr [ tag "_attr" (tag "text" (VStr "Entertainment")) ]));
        NTag (tag "itunes:explicit" (VStr "no")) ] in
    let siteMeta := if truthy (opt m) then concat_value siteMeta (opt m) else siteMeta in
    Ok (siteMeta ++ List.map NTag (elevateCategory σ group) ++ List.map NItem group).

(** The values this revision's [cleanNullValues] deletes: [null],
    [undefined] and ['']. *)
Definition blank (v : value) : bool :=
  match v with
  | VUndef | VNull => true
  | VStr s => String.eqb s ""
  | _ => false
  end.

(** [cleanNullValues(obj)]: deletes the blank properties of [obj] in place
    and has no [return]; the pair is the object after the call and the
    value the call evaluates to. *)
Definition cleanNullValues (obj : gmap string value)
  : gmap string value * option (gmap string value) :=
  (filter (λ kv, blank kv.2 = false) obj, None).

(** [wrapInTopLevel(data, attr)]: [filteredNamespaces] is [undefined], and
    [Object.assign(defaultAttr, undefined)] copies nothing. *)
Definition wrapInTopLevel (data : list node) (attr : option (gmap string value)) : rss :=
  let defaultAttr : gmap string value := {[ "version" := VStr "2.0" ]} in
  let combinedNamespaces := default ∅ attr ∪ delete "version" defaultNamespaces in
  let '(combinedNamespaces, filteredNamespaces) := cleanNullValues combinedNamespaces in
  {| _attr := default ∅ filteredNamespaces ∪ defaultAttr;
     channel := data |}.

(** [wrapInItem(entry)]: a plain wrapper. *)
Definition wrapInItem (entry : loc) (σ : heap) : result (wrapped * heap) :=
  Ok (Wrap entry, σ).

Definition pipeline (p : payload) (now : clock) (σ : heap)
  : Highland.stream rss * heap :=
  let '(items, σ1) := Highland.map wrapInItem (Highland.of_array (feed p)) σ in
  let '(channels, σ2) :=
    Highland.map (fun group σ' =>
                    let* data := feedMetaTags (meta p) now σ' group in Ok (data, σ'))
                 (Highland.collect items) σ1 in
  Highland.map (fun data σ' => Ok (wrapInTopLevel data (attr p), σ')) channels σ2.

(** [render]: no image step; the error texts are the first revision's. *)
Definition render (xml : serializer) (p : payload) (now : clock) (σ : heap)
  : outcome :=
  let '(s, σ') := pipeline p now σ in
  let '(handled, s') := Highland.errors s in
  Settled σ' (meta p)
    (flat_map FirstRevision.sendError handled
     ++ FirstRevision.respond xml σ' (Highland.toPromise s')).

End PodcastRevision.

(** * Specification vocabulary *)

(** The test the scan applies to an entry: a truthy [image] property. *)
Definition is_image (x : value) : bool := truthy (get x "image").

(** An entry whose properties can be read without an exception. *)
Definition defined (x : value) : Prop := nullish x = false.

(** What the entry normalizer is meant to leave: the entries without the
    first one that passes the image test. *)
Fixpoint without_first_image (entries : list value) : list value :=
  match entries with
  | [] => []
  | x :: rest => if is_image x then rest else x :: without_first_image rest
  end.

(** The calls of the success path for a document: the content type, then
    the body when the serializer returns, and the Error Responder's calls
    for its exception when it throws. *)
Definition success_calls (xml : serializer) (body : document) : list call :=
  res_type "text/rss+xml"
  :: match xml body with
     | Ok _ => [ res_send body ]
     | Throw e => sendError e
     end.

(** The calls made once the entry normalizer has run over the feed:
    [errs] are the exceptions it raised, [group] the wrapped items. *)
Definition calls_after (xml : serializer) (p : payload) (m : Meta) (now : clock)
    (σ : heap) (errs : list Error) (group : list wrapped) : list call :=
  match feedMetaTags m now σ group with
  | Ok data =>
      flat_map sendError errs
      ++ success_calls xml (resolve σ (wrapInTopLevel data (attr p)))
  | Throw e =>
      flat_map sendError (errs ++ [e; EmptyPipelineResultError])
  end.

(** The Meta the image step hands on: the caller's, with [image] replaced by
    [{ url }] when the first entry with a truthy [image] of the first
    FeedItem yields a truthy [url]. *)
Definition hoisted_meta (m : Meta) (feed : list loc) (σ : heap) : Meta :=
  match feed with
  | [] => m
  | first :: _ =>
      match List.find is_image (σ first) with
      | Some x =>
          if truthy (get_image_url x)
          then set_image m (tag "url" (get_image_url x))
          else m
      | None => m
      end
  end.

(** Every entry of every array of the feed can be read. *)
Definition well_formed (feed : list loc) (σ : heap) : Prop :=
  forall l, In l feed -> Forall defined (σ l).

Definition no_image (entries : list value) : Prop :=
  Forall (fun x => is_image x = false) entries.

Definition at_most_one_image (entries : list value) : Prop :=
  (length (List.filter is_image entries) <= 1)%nat.

(** The records [Meta.opt] contributes to the channel. *)
Definition opt_tags (v : value) : list value :=
  if truthy v then match v with VArr ys => ys | _ => [v] end else [].

(** The channel image record, present when [Meta.image] is truthy. *)
Definition image_tags (m : Meta) : list value :=
  if truthy (image m)
  then [ tag "image" (VArr [ tag "url" (get (image m) "url");
                             tag "link" (link m);
                             tag "title" (title m) ]) ]
  else [].

(** The derived category record of one item: none when the comma-join of its
    categories is empty. *)
Definition category_tags (entries : list value) : list value :=
  if String.eqb (item_categories entries) ""
  then []
  else [ tag "category" (VStr (item_categories entries)) ].

(** The fixed head of the channel. *)
Definition site_tags (m : Meta) (now : clock) : list value :=
  [ tag "title" (title m);
    tag "description" (description m);
    tag "link" (link m);
    tag "lastBuildDate" (VStr (rfc822 now));
    tag "docs" (or_default (docs m) (VStr docsUrl));
    tag "copyright" (if truthy (copyright m) then copyright m
                     else VNum (getFullYear now));
    tag "generator" (or_default (generator m) (VStr generatorMessage)) ].

(** Whether category elevation is switched on. *)
Definition elevates (m : Meta) : bool :=
  match elevateChannelCategories m with
  | VUndef => true
  | flag => truthy flag
  end.

(** A tag-record: an object with one property. *)
Definition tag_record (x : value) : Prop := exists k v, x = tag k v.

(** [typeof x === 'object'] for a value other than [null] and an array. *)
Definition is_object (x : value) : bool :=
  match x with
  | VObj _ => true
  | _ => false
  end.

(** The iTunes block of the podcast revision. *)
Definition itunes_tags (m : Meta) : list value :=
  [ tag "language" (VStr "en-us");
    tag "itunes:subtitle" (description m);
    tag "itunes:author" (title m);
    tag "itunes:summary" (description m);
    tag "itunes:type" (VStr "episodic");
    tag "itunes:owner"
      (VArr [ tag "itunes:name" (title m);
              tag "itunes:email" (VStr "neil.janowitz@vulture.com") ]);
    tag "itunes:image"
      (VStr "http://pixel.nymag.com/imgs/daily/vulture/2018/08/21/Vulture3000x3000.jpg");
    tag "itunes:category" (VArr [ tag "_attr" (tag "text" (VStr "Entertainment")) ]);
    tag "itunes:explicit" (VStr "no") ].

(** The fixed head of the channel in the two earlier revisions. *)
Definition first_site_tags (m : Meta) (now : clock) : list value :=
  [ tag "title" (title m);
    tag "description" (description m);
    tag "link" (link m);
    tag "lastBuildDate" (VStr (rfc822 now));
    tag "docs" (if truthy (docs m) then docs m
                else VStr "http://blogs.law.harvard.edu/tech/rss");
    tag "copyright" (if truthy (copyright m) then copyright m
                     else VNum (getFullYear now));
    tag "generator" (if truthy (generator m) then generator m
                     else VStr "Feed delivered by Clay") ].

(** What the first revision's normalizer leaves of an array: the entries
    without the first image entry, or without the last entry when there is
    no image entry. *)
Definition without_image_or_last (entries : list value) : list value :=
  if existsb is_image entries
  then without_first_image entries
  else removelast entries.

(** The item elements of a document, in document order. *)
Definition item_elements (body : document) : list (list value) :=
  omap (fun el => match el with
                  | ItemElement entries => Some entries
                  | Plain _ => None
                  end) (elements body).

(** ** Fixtures *)

Module Fixtures.

Definition noon : clock :=
  {| rfc822 := "Mon, 02 Nov 2026 12:00:00 +0000"; getFullYear := 2026 |}.

(** [{ title: 'Show', description: 'D', link: 'http://x' }]. *)
Definition show : Meta :=
  {| title := VStr "Show"; description := VStr "D"; link := VStr "http://x";
     copyright := VUndef; generator := VUndef; docs := VUndef;
     opt := VUndef; image := VUndef; elevateChannelCategories := VUndef |}.

(** The same without a title. *)
Definition untitled : Meta :=
  {| title := VUndef; description := VStr "D"; link := VStr "http://x";
     copyright := VUndef; generator := VUndef; docs := VUndef;
     opt := VUndef; image := VUndef; elevateChannelCategories := VUndef |}.

(** [copyright: ''] supplied by the caller. *)
Definition blank_copyright : Meta :=
  {| title := VStr "Show"; description := VStr "D"; link := VStr "http://x";
     copyright := VStr ""; generator := VUndef; docs := VUndef;
     opt := VUndef; image := VUndef; elevateChannelCategories := VUndef |}.

(** [copyright: 0] supplied by the caller. *)
Definition zero_copyright : Meta :=
  {| title := VStr "Show"; description := VStr "D"; link := VStr "http://x";
     copyright := VNum 0; generator := VUndef; docs := VUndef;
     opt := VUndef; image := VUndef; elevateChannelCategories := VUndef |}.

(** [image: { url: 'http://c' }] supplied by the caller. *)
Definition branded : Meta :=
  {| title := VStr "Show"; description := VStr "D"; link := VStr "http://x";
     copyright := VUndef; generator := VUndef; docs := VUndef;
     opt := VUndef; image := tag "url" (VStr "http://c");
     elevateChannelCategories := VUndef |}.

(** Array 0 is [[{title:'Ep1'},{category:'News'}]] and array 1 is
    [[{title:'Ep2'},{category:'Tech'}]]. *)
Definition episodes : heap := fun l =>
  match l with
  | 0%nat => [ tag "title" (VStr "Ep1"); tag "category" (VStr "News") ]
  | 1%nat => [ tag "title" (VStr "Ep2"); tag "category" (VStr "Tech") ]
  | _ => []
  end.

(** Array 0 is [[{title:'Ep1'},{image:{url:'http://i'}},{category:'News'}]]
    and array 1 is [[{image:{url:'http://j'}},{title:'Ep2'}]]. *)
Definition illustrated : heap := fun l =>
  match l with
  | 0%nat => [ tag "title" (VStr "Ep1");
               tag "image" (tag "url" (VStr "http://i"));
               tag "category" (VStr "News") ]
  | 1%nat => [ tag "image" (tag "url" (VStr "http://j"));
               tag "title" (VStr "Ep2") ]
  | _ => []
  end.

(** Array 0 is [[{title:'Ep1'},{image:''}]]. *)
Definition blank_image : heap := fun l =>
  match l with
  | 0%nat => [ tag "title" (VStr "Ep1"); tag "image" (VStr "") ]
  | _ => []
  end.

(** Array 0 is [[{title:'Ep1'}]]. *)
Definition plain : heap := fun l =>
  match l with
  | 0%nat => [ tag "title" (VStr "Ep1") ]
  | _ => []
  end.

(** Array 0 is [[{title:'Ep1'}]] and array 1 is [[null]]. *)
Definition broken : heap := fun l =>
  match l with
  | 0%nat => [ tag "title" (VStr "Ep1") ]
  | 1%nat => [ VNull ]
  | _ => []
  end.

(** Array 0 is [[{image:'http://i'},{title:'Ep1'}]]: the image is a plain
    string. *)
Definition linked : heap := fun l =>
  match l with
  | 0%nat => [ tag "image" (VStr "http://i"); tag "title" (VStr "Ep1") ]
  | _ => []
  end.

(** Array 0 is [[{image:{url:'http://i'}}, null]]. *)
Definition trailing_null : heap := fun l =>
  match l with
  | 0%nat => [ tag "image" (tag "url" (VStr "http://i")); VNull ]
  | _ => []
  end.

(** A serializer for the fixtures: like the [xml] package it throws when
    [null] stands among the entries of an item, and it returns otherwise
    (the text itself is left empty). *)
Definition xml : serializer := fun body =>
  if existsb (existsb (fun x => match x with
                                | VNull => true
                                | _ => false
                                end)) (item_elements body)
  then Throw (SerializerError "Cannot convert undefined or null to object")
  else Ok "".

End Fixtures.

(** * Properties *)

(** ** Printing numbers *)

(** Numbers print in plain digits up to 21 digits, with the shortest digits
    that read back as the same double, and in exponent form beyond. *)
Example number_toString_forms :
  List.map number_toString
    [ 0; 2026; -42; 2 ^ 53 + 1; 2 ^ 64; 10 ^ 21 - 1; 10 ^ 21; 10 ^ 23; 2 ^ 70;
      - 2 ^ 100; 2 ^ 1024 ]
  = [ "0"; "2026"; "-42"; "9007199254740992"; "18446744073709552000"; "1e+21";
      "1e+21"; "1e+23"; "1.1805916207174113e+21"; "-1.2676506002282294e+30";
      "Infinity" ].
Proof. vm_compute. reflexivity. Qed.

(** A number among the categories of an item is joined in as JavaScript
    prints it. *)
Example item_categories_prints_numbers :
  item_categories [ tag "category" (VNum 2026); tag "category" (VStr "News");
                    tag "category" (VNum (10 ^ 21)) ]
  = "2026,News,1e+21".
Proof. vm_compute. reflexivity. Qed.

(** ** Scanning an entry array for its image record *)

Lemma member_defined (x : value) (k : string) :
  defined x -> member x k = Ok (get x k).
Proof. unfold defined, member. intros ->. reflexivity. Qed.

Lemma member_Ok (x : value) (k : string) (v : value) :
  member x k = Ok v -> defined x /\ v = get x k.
Proof.
  unfold member, defined. destruct (nullish x); [discriminate|].
  intros [= <-]. split; reflexivity.
Qed.

Lemma findIndex_from_Ok (k : string) (xs : list value) :
  forall i j,
    findIndex_from i xs k = Ok j ->
    (j = -1 /\ Forall (fun x => defined x /\ truthy (get x k) = false) xs)
    \/ (exists pre x post,
          xs = pre ++ x :: post
          /\ Forall (fun y => defined y /\ truthy (get y k) = false) pre
          /\ defined x /\ truthy (get x k) = true
          /\ j = i + Z.of_nat (length pre)).
Proof.
  induction xs as [|x xs IH]; intros i j Hj; simpl in Hj.
  - left. injection Hj as <-. split; [reflexivity | constructor].
  - destruct (member x k) as [p|e] eqn:Hm; simpl in Hj; [|discriminate].
    apply member_Ok in Hm as [Hx ->].
    destruct (truthy (get x k)) eqn:Ht.
    + right. exists [], x, xs. injection Hj as <-.
      repeat split; auto. simpl. lia.
    + destruct (IH _ _ Hj) as [[-> Hall] | (pre & y & post & -> & Hpre & Hy & Hty & ->)].
      * left. split; [reflexivity | constructor; auto].
      * right. exists (x :: pre), y, post.
        repeat split; auto. simpl length. lia.
Qed.

Lemma findIndex_from_Throw (k : string) (xs : list value) :
  forall i e,
    findIndex_from i xs k = Throw e ->
    exists pre x post,
      xs = pre ++ x :: post
      /\ Forall (fun y => defined y /\ truthy (get y k) = false) pre
      /\ nullish x = true /\ e = TypeError k x.
Proof.
  induction xs as [|x xs IH]; intros i e He; simpl in He; [discriminate|].
  unfold member in He. destruct (nullish x) eqn:Hn; simpl in He.
  - injection He as <-. exists [], x, xs. repeat split; auto.
  - destruct (truthy (get x k)) eqn:Ht; [discriminate|].
    destruct (IH _ _ He) as (pre & y & post & -> & Hpre & Hy & ->).
    exists (x :: pre), y, post. repeat split; auto.
Qed.

Lemma findIndex_from_defined (k : string) (xs : list value) :
  Forall defined xs -> forall i, exists j, findIndex_from i xs k = Ok j.
Proof.
  induction 1 as [|x xs Hx _ IH]; intros i; simpl.
  - eauto.
  - rewrite (member_defined _ _ Hx). simpl.
    destruct (truthy (get x k)); eauto.
Qed.

Lemma splice1_middle (pre : list value) (x : value) (post : list value) :
  splice1 (pre ++ x :: post) (Z.of_nat (length pre)) = pre ++ post.
Proof.
  unfold splice1. rewrite Nat2Z.id.
  rewrite take_app_length.
  replace (S (length pre)) with (length (pre ++ [x])) by (rewrite length_app; simpl; lia).
  replace (pre ++ x :: post) with ((pre ++ [x]) ++ post) by (rewrite <- app_assoc; reflexivity).
  rewrite drop_app_length. reflexivity.
Qed.

Lemma without_first_image_middle (pre : list value) (x : value) (post : list value) :
  Forall (fun y => is_image y = false) pre ->
  is_image x = true ->
  without_first_image (pre ++ x :: post) = pre ++ post.
Proof.
  induction 1 as [|y pre Hy _ IH]; intros Hx; simpl.
  - rewrite Hx. reflexivity.
  - rewrite Hy, (IH Hx). reflexivity.
Qed.

Lemma without_first_image_none (xs : list value) :
  Forall (fun y => is_image y = false) xs -> without_first_image xs = xs.
Proof.
  induction 1 as [|y xs Hy _ IH]; simpl; [reflexivity|].
  rewrite Hy, IH. reflexivity.
Qed.

Lemma Forall_defined_without_first_image (xs : list value) :
  Forall defined xs -> Forall defined (without_first_image xs).
Proof.
  induction 1 as [|y xs Hy Hxs IH]; simpl; [constructor|].
  destruct (is_image y); [assumption | constructor; assumption].
Qed.

(** ** The entry normalizer *)

(** Whenever [wrapInItem] returns, the wrapper refers to the very array it was
    given, that array has lost its first image entry, and no other array of
    the store has changed. *)
Lemma wrapInItem_Ok (l : loc) (σ : heap) (w : wrapped) (σ' : heap) :
  wrapInItem l σ = Ok (w, σ') ->
  w = Wrap l
  /\ forall l', σ' l' = if decide (l = l') then without_first_image (σ l) else σ l'.
Proof.
  unfold wrapInItem, findIndexOfElementInArray.
  destruct (length (σ l) =? 0)%nat eqn:Hlen; simpl.
  - intros [= <- <-]. split; [reflexivity|]. intros l'.
    apply Nat.eqb_eq in Hlen. apply nil_length_inv in Hlen.
    case_decide; subst; [rewrite Hlen|]; reflexivity.
  - destruct (findIndex_from 0 (σ l) "image") as [j|e] eqn:Hf; simpl; [|discriminate].
    apply findIndex_from_Ok in Hf
      as [[-> Hall] | (pre & x & post & Hsplit & Hpre & Hx & Htx & ->)].
    + simpl. intros [= <- <-]. split; [reflexivity|]. intros l'.
      case_decide; subst; [|reflexivity].
      rewrite without_first_image_none; [reflexivity|].
      eapply List.Forall_impl; [|exact Hall]. intros y [_ Hy]. exact Hy.
    + replace (negb (0 + Z.of_nat (length pre) =? -1)) with true
        by (symmetry; apply negb_true_iff, Z.eqb_neq; lia).
      intros [= <- <-]. split; [reflexivity|]. intros l'.
      unfold insert, fn_insert. case_decide; [|reflexivity].
      rewrite Hsplit, Z.add_0_l, splice1_middle, without_first_image_middle; auto.
      eapply List.Forall_impl; [|exact Hpre]. intros y [_ Hy]. exact Hy.
Qed.

Lemma wrapInItem_defined (l : loc) (σ : heap) :
  Forall defined (σ l) -> exists σ', wrapInItem l σ = Ok (Wrap l, σ').
Proof.
  intros Hd. unfold wrapInItem, findIndexOfElementInArray.
  destruct (negb (length (σ l) =? 0)%nat); [|eauto].
  destruct (findIndex_from_defined "image" _ Hd 0) as [j ->]. simpl.
  destruct (negb (j =? -1)); eauto.
Qed.

Lemma wrapInItem_Throw (l : loc) (σ : heap) (e : Error) :
  wrapInItem l σ = Throw e ->
  exists x, In x (σ l) /\ nullish x = true /\ e = TypeError "image" x.
Proof.
  unfold wrapInItem, findIndexOfElementInArray.
  destruct (negb (length (σ l) =? 0)%nat); [|discriminate].
  destruct (findIndex_from 0 (σ l) "image") as [j|e'] eqn:Hf; simpl.
  - destruct (negb (j =? -1)); discriminate.
  - intros [= <-]. apply findIndex_from_Throw in Hf as (pre & x & post & Hs & _ & Hn & ->).
    exists x. rewrite Hs. split; [apply in_or_app; right; left; reflexivity | auto].
Qed.

(** ** The stream operators *)

Module HighlandFacts.
Import Highland.

Lemma errors_of_app {A : Type} (s t : stream A) :
  errors_of (s ++ t) = errors_of s ++ errors_of t.
Proof. unfold errors_of. apply omap_app. Qed.

Lemma values_of_app {A : Type} (s t : stream A) :
  values_of (s ++ t) = values_of s ++ values_of t.
Proof. unfold values_of. apply omap_app. Qed.

Lemma errors_of_Err {A : Type} (es : list Error) :
  errors_of (A := A) (List.map Err es) = es.
Proof. induction es as [|e es IH]; simpl; [|rewrite IH]; reflexivity. Qed.

Lemma values_of_Err {A : Type} (es : list Error) :
  values_of (A := A) (List.map Err es) = [].
Proof. induction es as [|e es IH]; simpl; auto. Qed.

Lemma errors_of_Val {A : Type} (xs : list A) :
  errors_of (List.map Val xs) = [].
Proof. induction xs as [|x xs IH]; simpl; auto. Qed.

Lemma values_of_Val {A : Type} (xs : list A) :
  values_of (List.map Val xs) = xs.
Proof. induction xs as [|x xs IH]; simpl; [|rewrite IH]; reflexivity. Qed.

(** Errors that are already on the stream go through [map] untouched. *)
Lemma map_Err_app {A B S : Type} (f : A -> S -> result (B * S))
    (es : list Error) (s : stream A) (σ : S) :
  map f (List.map Err es ++ s) σ =
  (List.map Err es ++ (map f s σ).1, (map f s σ).2).
Proof.
  induction es as [|e es IH]; simpl.
  - destruct (map f s σ); reflexivity.
  - rewrite IH. reflexivity.
Qed.

(** Running a store-preserving function over a stream with one value. *)
Lemma map_single {A B S : Type} (f : A -> S -> result B) (x : A) (σ : S) :
  map (fun a σ' => let* b := f a σ' in Ok (b, σ')) [Val x] σ =
  (match f x σ with Ok b => [Val b] | Throw e => [Err e] end, σ).
Proof. simpl. destruct (f x σ); reflexivity. Qed.

End HighlandFacts.

(** ** render, one stage after the other *)

Lemma render_stages (xml : serializer) (p : payload) (now : clock) (σ : heap) :
  render xml p now σ =
  match hoistImage (feed p) (meta p) σ with
  | Throw e => Thrown e
  | Ok m =>
      let items := Highland.map wrapInItem (Highland.of_array (feed p)) σ in
      Settled items.2 m
        (calls_after xml p m now items.2
           (Highland.errors_of items.1) (Highland.values_of items.1))
  end.
Proof.
  unfold render, pipeline, calls_after.
  destruct (hoistImage (feed p) (meta p) σ) as [m|e]; [|reflexivity].
  destruct (Highland.map wrapInItem (Highland.of_array (feed p)) σ) as [items σ1].
  cbn [fst snd]. unfold Highland.collect.
  rewrite HighlandFacts.map_Err_app, HighlandFacts.map_single.
  cbn [fst snd].
  destruct (feedMetaTags m now σ1 (Highland.values_of items)) as [data|e].
  - rewrite HighlandFacts.map_Err_app. cbn [Highland.map fst snd bind].
    unfold Highland.errors.
    rewrite HighlandFacts.errors_of_app, HighlandFacts.values_of_app,
      HighlandFacts.errors_of_Err, HighlandFacts.values_of_Err.
    cbn. rewrite List.app_nil_r. reflexivity.
  - change [Highland.Err (A := list node) e]
      with (List.map (Highland.Err (A := list node)) [e]).
    rewrite <- map_app.
    rewrite <- (List.app_nil_r (List.map _ (_ ++ [e]))).
    rewrite HighlandFacts.map_Err_app. cbn [Highland.map fst snd].
    unfold Highland.errors.
    rewrite HighlandFacts.errors_of_app, HighlandFacts.values_of_app,
      HighlandFacts.errors_of_Err, HighlandFacts.values_of_Err.
    cbn [Highland.errors_of Highland.values_of omap app List.map
         Highland.toPromise respond].
    rewrite List.app_nil_r.
    rewrite !flat_map_app. cbn. rewrite <- app_assoc. reflexivity.
Qed.

(** ** The entry normalizer over a whole feed *)

Lemma no_image_without_first_image (xs : list value) :
  at_most_one_image xs -> no_image (without_first_image xs).
Proof.
  unfold at_most_one_image, no_image.
  induction xs as [|x xs IH]; simpl; [constructor|].
  destruct (is_image x) eqn:Hx; simpl; intros Hle.
  - assert (Hnil : List.filter is_image xs = [])
      by (destruct (List.filter is_image xs); [reflexivity | simpl in Hle; lia]).
    clear IH Hle. induction xs as [|y ys IHy]; [constructor|].
    simpl in Hnil. destruct (is_image y) eqn:Hy; [discriminate|].
    constructor; auto.
  - constructor; auto.
Qed.

Lemma at_most_one_without_first_image (xs : list value) :
  at_most_one_image xs -> at_most_one_image (without_first_image xs).
Proof.
  unfold at_most_one_image.
  induction xs as [|x xs IH]; simpl; [lia|].
  destruct (is_image x) eqn:Hx; simpl; [lia|].
  rewrite Hx. exact IH.
Qed.

Lemma normalize_well_formed (feed : list loc) :
  forall σ,
    well_formed feed σ ->
    (Highland.map wrapInItem (Highland.of_array feed) σ).1
      = List.map Highland.Val (List.map Wrap feed)
    /\ forall l,
        (Highland.map wrapInItem (Highland.of_array feed) σ).2 l
          = Nat.iter (count_occ Nat.eq_dec feed l) without_first_image (σ l).
Proof.
  induction feed as [|l rest IH]; intros σ Hwf.
  - split; reflexivity.
  - cbn [Highland.of_array List.map Highland.map].
    destruct (wrapInItem_defined l σ) as [σ1 Hw]; [apply Hwf; left; reflexivity|].
    rewrite Hw. apply wrapInItem_Ok in Hw as [_ Hσ1].
    assert (Hwf1 : well_formed rest σ1).
    { intros l' Hl'. rewrite Hσ1. case_decide.
      - apply Forall_defined_without_first_image, Hwf. left; reflexivity.
      - apply Hwf. right; exact Hl'. }
    destruct (IH σ1 Hwf1) as [Hs Hh]. fold (Highland.of_array rest).
    destruct (Highland.map wrapInItem (Highland.of_array rest) σ1) as [out σ'].
    cbn [fst snd] in *. split; [rewrite Hs; reflexivity|].
    intros l'. rewrite Hh, Hσ1.
    destruct (Nat.eq_dec l l') as [->|Hne].
    + rewrite count_occ_cons_eq by reflexivity.
      rewrite decide_True by reflexivity.
      rewrite Nat.iter_succ_r. reflexivity.
    + rewrite count_occ_cons_neq by exact Hne.
      rewrite decide_False by exact Hne. reflexivity.
Qed.

(** An array without image entries is never touched. *)
Lemma normalize_keeps_no_image (s : Highland.stream loc) :
  forall σ l,
    no_image (σ l) ->
    no_image ((Highland.map wrapInItem s σ).2 l).
Proof.
  induction s as [|[e|l0] rest IH]; intros σ l Hl; simpl.
  - exact Hl.
  - specialize (IH σ l Hl). destruct (Highland.map wrapInItem rest σ). exact IH.
  - destruct (wrapInItem l0 σ) as [[w σ1]|e] eqn:Hw.
    + apply wrapInItem_Ok in Hw as [_ Hσ1].
      assert (H1 : no_image (σ1 l)).
      { rewrite Hσ1. case_decide; [subst|exact Hl].
        unfold no_image. rewrite without_first_image_none; exact Hl. }
      specialize (IH σ1 l H1). destruct (Highland.map wrapInItem rest σ1). exact IH.
    + specialize (IH σ l Hl). destruct (Highland.map wrapInItem rest σ). exact IH.
Qed.

(** Every wrapped item refers to an array of the feed, and that array holds
    no image entry once the whole feed has been normalized. *)
Lemma normalize_strips (feed : list loc) :
  forall σ,
    (forall l, In l feed -> at_most_one_image (σ l)) ->
    forall w,
      In w (Highland.values_of (Highland.map wrapInItem (Highland.of_array feed) σ).1) ->
      In (item w) feed
      /\ no_image ((Highland.map wrapInItem (Highland.of_array feed) σ).2 (item w)).
Proof.
  induction feed as [|l rest IH]; intros σ Hone w Hin.
  - destruct Hin.
  - cbn [Highland.of_array List.map Highland.map] in *.
    fold (Highland.of_array rest) in *.
    destruct (wrapInItem l σ) as [[w0 σ1]|e] eqn:Hw.
    + apply wrapInItem_Ok in Hw as [-> Hσ1].
      assert (Hone1 : forall l', In l' rest -> at_most_one_image (σ1 l')).
      { intros l' Hl'. rewrite Hσ1. case_decide.
        - apply at_most_one_without_first_image, Hone. left; reflexivity.
        - apply Hone. right; exact Hl'. }
      specialize (IH σ1 Hone1 w).
      pose proof (normalize_keeps_no_image (Highland.of_array rest) σ1 l) as Hkeep.
      destruct (Highland.map wrapInItem (Highland.of_array rest) σ1) as [out σ'].
      cbn [fst snd Highland.values_of omap] in *.
      destruct Hin as [<-|Hin].
      * split; [left; reflexivity|]. apply Hkeep.
        rewrite Hσ1, decide_True by reflexivity.
        apply no_image_without_first_image, Hone. left; reflexivity.
      * destruct (IH Hin) as [Hf Hn]. split; [right; exact Hf | exact Hn].
    + assert (Hone1 : forall l', In l' rest -> at_most_one_image (σ l'))
        by (intros l' Hl'; apply Hone; right; exact Hl').
      specialize (IH σ Hone1 w).
      destruct (Highland.map wrapInItem (Highland.of_array rest) σ) as [out σ'].
      cbn [fst snd Highland.values_of omap] in *.
      destruct (IH Hin) as [Hf Hn]. split; [right; exact Hf | exact Hn].
Qed.

(** ** The metadata assembler *)

Lemma elevateCategory_per_item (σ : heap) (group : list wrapped) :
  elevateCategory σ group = flat_map (fun w => category_tags (σ (item w))) group.
Proof.
  unfold elevateCategory. induction group as [|w group IH]; [reflexivity|].
  cbn [List.map List.filter flat_map]. rewrite <- IH. unfold category_tags.
  change (truthy (VStr (item_categories (σ (item w)))))
    with (negb (String.eqb (item_categories (σ (item w))) "")).
  destruct (String.eqb (item_categories (σ (item w))) ""); reflexivity.
Qed.

Lemma feedMetaTags_valid (m : Meta) (now : clock) (σ : heap) (group : list wrapped) :
  truthy (title m) = true ->
  truthy (description m) = true ->
  truthy (link m) = true ->
  feedMetaTags m now σ group =
  Ok (List.map NTag
        (site_tags m now ++ opt_tags (opt m) ++ image_tags m
         ++ (if elevates m then elevateCategory σ group else []))
      ++ List.map NItem group).
Proof.
  intros Ht Hd Hl. unfold feedMetaTags. rewrite Ht, Hd, Hl. cbn [negb orb].
  f_equal. unfold site_tags, opt_tags, image_tags, elevates, or_else, or_default,
    formatImageTag, concat_value.
  assert (Hflag :
    truthy match elevateChannelCategories m with
           | VUndef => VBool true
           | _ => elevateChannelCategories m
           end
    = match elevateChannelCategories m with
      | VUndef => true
      | flag => truthy flag
      end) by (destruct (elevateChannelCategories m); reflexivity).
  rewrite Hflag. clear Hflag.
  destruct (truthy (opt m)) eqn:Ho; destruct (truthy (image m)) eqn:Hi;
    [destruct (opt m); try discriminate Ho | destruct (opt m); try discriminate Ho | |];
    rewrite ?map_app, <- ?app_assoc; reflexivity.
Qed.

Lemma feedMetaTags_missing (m : Meta) (now : clock) (σ : heap) (group : list wrapped) :
  truthy (title m) = false \/ truthy (description m) = false \/ truthy (link m) = false ->
  feedMetaTags m now σ group = Throw MissingRequiredFieldError.
Proof.
  intros H. unfold feedMetaTags.
  destruct (truthy (title m)), (truthy (description m)), (truthy (link m));
    try reflexivity.
  destruct H as [H|[H|H]]; discriminate H.
Qed.

Lemma feedMetaTags_cases (m : Meta) (now : clock) (σ : heap) (group : list wrapped) :
  (truthy (title m) = true /\ truthy (description m) = true /\ truthy (link m) = true)
  \/ feedMetaTags m now σ group = Throw MissingRequiredFieldError.
Proof.
  destruct (truthy (title m)) eqn:Ht; [|right; apply feedMetaTags_missing; auto].
  destruct (truthy (description m)) eqn:Hd; [|right; apply feedMetaTags_missing; auto].
  destruct (truthy (link m)) eqn:Hl; [|right; apply feedMetaTags_missing; auto].
  left. auto.
Qed.

Lemma feedMetaTags_Ok (m : Meta) (now : clock) (σ : heap) (group : list wrapped)
    (data : list node) :
  feedMetaTags m now σ group = Ok data ->
  (truthy (title m) = true /\ truthy (description m) = true /\ truthy (link m) = true)
  /\ data =
     List.map NTag
       (site_tags m now ++ opt_tags (opt m) ++ image_tags m
        ++ (if elevates m then elevateCategory σ group else []))
     ++ List.map NItem group.
Proof.
  intros H. destruct (feedMetaTags_cases m now σ group) as [(Ht & Hd & Hl)|Hthrow].
  - rewrite (feedMetaTags_valid _ _ _ _ Ht Hd Hl) in H. injection H as <-. auto.
  - rewrite Hthrow in H. discriminate H.
Qed.

(** ** The image hoisting step *)

Lemma hoistImage_well_formed (feed : list loc) (m : Meta) (σ : heap) :
  well_formed feed σ -> exists m', hoistImage feed m σ = Ok m'.
Proof.
  intros Hwf. destruct feed as [|first rest]; simpl; [eauto|].
  unfold findIndexOfElementInArray.
  destruct (findIndex_from_defined "image" (σ first) (Hwf first (or_introl eq_refl)) 0)
    as [j ->]. simpl.
  destruct (truthy (get_image_url (index (σ first) j))); eauto.
Qed.

Lemma index_middle (pre : list value) (x : value) (post : list value) :
  index (pre ++ x :: post) (0 + Z.of_nat (length pre)) = x.
Proof.
  unfold index. rewrite Z.add_0_l.
  replace (Z.of_nat (length pre) <? 0) with false by (symmetry; apply Z.ltb_ge; lia).
  rewrite Nat2Z.id, list_lookup_middle by reflexivity. reflexivity.
Qed.

(** The hoisting step either leaves [meta] alone or stores the [url] found in
    the first image entry of the first array; nothing else is read. *)
Lemma hoistImage_Ok (feed : list loc) (m m' : Meta) (σ : heap) :
  hoistImage feed m σ = Ok m' ->
  m' = m
  \/ exists first rest pre x post,
       feed = first :: rest
       /\ σ first = pre ++ x :: post
       /\ no_image pre /\ is_image x = true
       /\ truthy (get_image_url x) = true
       /\ m' = set_image m (tag "url" (get_image_url x)).
Proof.
  destruct feed as [|first rest]; simpl.
  - intros [= <-]. left; reflexivity.
  - unfold findIndexOfElementInArray.
    destruct (findIndex_from 0 (σ first) "image") as [j|e] eqn:Hf; simpl; [|discriminate].
    apply findIndex_from_Ok in Hf
      as [[-> Hall] | (pre & x & post & Hsplit & Hpre & Hx & Htx & ->)].
    + cbn. intros [= <-]. left; reflexivity.
    + rewrite Hsplit, index_middle.
      destruct (truthy (get_image_url x)) eqn:Hu; intros [= <-]; [|left; reflexivity].
      right. exists first, rest, pre, x, post. repeat split; auto.
      eapply List.Forall_impl; [|exact Hpre]. intros y [_ Hy]. exact Hy.
Qed.

Lemma hoistImage_required (feed : list loc) (m m' : Meta) (σ : heap) :
  hoistImage feed m σ = Ok m' ->
  title m' = title m /\ description m' = description m /\ link m' = link m
  /\ copyright m' = copyright m /\ generator m' = generator m /\ docs m' = docs m
  /\ opt m' = opt m /\ elevateChannelCategories m' = elevateChannelCategories m.
Proof.
  intros H. apply hoistImage_Ok in H
    as [-> | (first & rest & pre & x & post & _ & _ & _ & _ & _ & ->)];
    repeat split; reflexivity.
Qed.

Lemma find_first_image (pre : list value) (x : value) (post : list value) :
  Forall (fun y => is_image y = false) pre ->
  is_image x = true ->
  List.find is_image (pre ++ x :: post) = Some x.
Proof.
  induction 1 as [|y pre Hy _ IH]; intros Hx; cbn [app List.find].
  - rewrite Hx. reflexivity.
  - rewrite Hy. apply IH. exact Hx.
Qed.

Lemma find_no_image (xs : list value) :
  Forall (fun y => is_image y = false) xs -> List.find is_image xs = None.
Proof.
  induction 1 as [|y xs Hy _ IH]; cbn [List.find]; [reflexivity|].
  rewrite Hy. exact IH.
Qed.

(** The image step, when it returns, returns exactly [hoisted_meta]. *)
Lemma hoistImage_exact (feed : list loc) (m m' : Meta) (σ : heap) :
  hoistImage feed m σ = Ok m' -> m' = hoisted_meta m feed σ.
Proof.
  destruct feed as [|first rest]; cbn [hoistImage hoisted_meta].
  - intros [= <-]. reflexivity.
  - unfold findIndexOfElementInArray.
    destruct (findIndex_from 0 (σ first) "image") as [j|e] eqn:Hf; cbn [bind];
      [|discriminate].
    apply findIndex_from_Ok in Hf
      as [[-> Hall] | (pre & x & post & Hsplit & Hpre & Hx & Htx & ->)].
    + rewrite find_no_image
        by (eapply List.Forall_impl; [|exact Hall]; intros y [_ Hy]; exact Hy).
      cbn. intros [= <-]. reflexivity.
    + rewrite Hsplit, index_middle, find_first_image;
        [| eapply List.Forall_impl; [|exact Hpre]; intros y [_ Hy]; exact Hy
         | exact Htx].
      destruct (truthy (get_image_url x)); intros [= <-]; reflexivity.
Qed.

(** ** render on a well-formed feed *)

Lemma render_well_formed (xml : serializer) (p : payload) (now : clock) (σ : heap) :
  well_formed (feed p) σ ->
  exists σ' m,
    hoistImage (feed p) (meta p) σ = Ok m
    /\ (forall l, σ' l =
          Nat.iter (count_occ Nat.eq_dec (feed p) l) without_first_image (σ l))
    /\ render xml p now σ =
       Settled σ' m (calls_after xml p m now σ' [] (List.map Wrap (feed p))).
Proof.
  intros Hwf. rewrite render_stages.
  destruct (hoistImage_well_formed _ (meta p) _ Hwf) as [m Hm]. rewrite Hm.
  destruct (normalize_well_formed _ _ Hwf) as [Hs Hh].
  exists (Highland.map wrapInItem (Highland.of_array (feed p)) σ).2, m.
  split; [reflexivity|]. split; [exact Hh|].
  cbn zeta. rewrite Hs, HighlandFacts.errors_of_Val, HighlandFacts.values_of_Val.
  reflexivity.
Qed.

Lemma sendError_no_send (es : list Error) (c : call) :
  In c (flat_map sendError es) ->
  match c with
  | res_type _ | res_send _ => False
  | _ => True
  end.
Proof.
  induction es as [|e es IH]; simpl; [tauto|].
  intros [<-|[<-|[<-|H]]]; [exact I | exact I | exact I | exact (IH H)].
Qed.

(** The Error Responder writes neither a content type nor a body. *)
Ltac not_a_response H :=
  apply sendError_no_send in H; first [exact H | destruct H].

Lemma success_calls_send (xml : serializer) (body b : document) :
  In (res_send b) (success_calls xml body) ->
  b = body
  /\ (exists text, xml body = Ok text)
  /\ success_calls xml body = [ res_type "text/rss+xml"; res_send body ].
Proof.
  unfold success_calls. intros [Hin|Hin]; [discriminate Hin|].
  destruct (xml body) as [text|e].
  - destruct Hin as [Hin|[]]. injection Hin as <-. eauto.
  - exfalso. destruct Hin as [Hin|[Hin|[Hin|[]]]]; discriminate Hin.
Qed.

(** A body among the calls means that the assembler returned and that the
    serializer returned on the document it was handed. *)
Lemma calls_after_send (xml : serializer) (p : payload) (m : Meta) (now : clock)
    (σ : heap) (errs : list Error) (group : list wrapped) (body : document) :
  In (res_send body) (calls_after xml p m now σ errs group) ->
  exists data,
    feedMetaTags m now σ group = Ok data
    /\ body = resolve σ (wrapInTopLevel data (attr p))
    /\ (exists text, xml body = Ok text)
    /\ calls_after xml p m now σ errs group
       = flat_map sendError errs ++ [ res_type "text/rss+xml"; res_send body ].
Proof.
  unfold calls_after. intros Hin.
  destruct (feedMetaTags m now σ group) as [data|e]; [|not_a_response Hin].
  apply in_app_or in Hin as [Hin|Hin]; [not_a_response Hin|].
  apply success_calls_send in Hin as (-> & Hxml & ->). eauto.
Qed.

(** * The claims *)

(** C3 (amended): for every FeedItem array whose entries can all be read,
    [wrapInItem] returns the wrapper around that same array and touches no
    other array; when some entry carries a truthy [image] property, the first
    such entry, and only it, is removed and the remaining entries keep their
    relative order; when no entry does, the array is wrapped unchanged. *)
Theorem wrapInItem_removes_first_image (entry : loc) (σ : heap) :
  Forall defined (σ entry) ->
  exists σ',
    wrapInItem entry σ = Ok (Wrap entry, σ')
    /\ (forall l, l <> entry -> σ' l = σ l)
    /\ (forall pre x post,
          σ entry = pre ++ x :: post ->
          no_image pre -> is_image x = true ->
          σ' entry = pre ++ post)
    /\ (no_image (σ entry) -> σ' entry = σ entry).
Proof.
  intros Hd. destruct (wrapInItem_defined entry σ Hd) as [σ' Hw].
  exists σ'. split; [exact Hw|].
  apply wrapInItem_Ok in Hw as [_ Hσ'].
  split; [|split].
  - intros l Hl. rewrite Hσ', decide_False by congruence. reflexivity.
  - intros pre x post Hsplit Hpre Hx.
    rewrite Hσ', decide_True by reflexivity.
    rewrite Hsplit. apply without_first_image_middle; assumption.
  - intros Hno. rewrite Hσ', decide_True by reflexivity.
    apply without_first_image_none. exact Hno.
Qed.

Lemma wrapInItem_removes_first_image_witness :
  Forall defined (Fixtures.illustrated 0%nat)
  /\ exists σ',
       wrapInItem 0%nat Fixtures.illustrated = Ok (Wrap 0%nat, σ')
       /\ σ' 0%nat = [ tag "title" (VStr "Ep1"); tag "category" (VStr "News") ]
       /\ σ' 1%nat = Fixtures.illustrated 1%nat.
Proof.
  assert (Hd : Forall defined (Fixtures.illustrated 0%nat))
    by (repeat constructor).
  split; [exact Hd|].
  destruct (wrapInItem_removes_first_image 0%nat Fixtures.illustrated Hd)
    as (σ' & Hw & Hother & Hremove & _).
  exists σ'. split; [exact Hw|]. split.
  - apply (Hremove [tag "title" (VStr "Ep1")]
                   (tag "image" (tag "url" (VStr "http://i")))
                   [tag "category" (VStr "News")]).
    + reflexivity.
    + repeat constructor.
    + reflexivity.
  - apply Hother. discriminate.
Defined.

(** C3, as stated, fails: the array [[{title:'Ep1'},{image:''}]] contains a
    tag-record keyed [image], and [wrapInItem] removes nothing from it. *)
Lemma wrapInItem_keeps_blank_image :
  In (tag "image" (VStr "")) (Fixtures.blank_image 0%nat)
  /\ exists σ',
       wrapInItem 0%nat Fixtures.blank_image = Ok (Wrap 0%nat, σ')
       /\ σ' 0%nat = [ tag "title" (VStr "Ep1"); tag "image" (VStr "") ].
Proof.
  split; [right; left; reflexivity|].
  eexists. split; reflexivity.
Qed.

(** C9 (amended): [render] works on the caller's arrays, not on copies.  On a
    feed whose entries can all be read the call settles, and afterwards every
    array has lost one first-image entry per occurrence of the array in the
    feed: an array outside the feed is unchanged, an array that occurs once
    has lost exactly its first entry with a truthy [image] (nothing when it
    has none), and the item written to the response is that same spliced
    array. *)
Theorem render_splices_caller_arrays (xml : serializer) (p : payload) (now : clock) (σ : heap) :
  well_formed (feed p) σ ->
  exists σ' m calls,
    render xml p now σ = Settled σ' m calls
    /\ (forall l,
          σ' l = Nat.iter (count_occ Nat.eq_dec (feed p) l) without_first_image (σ l))
    /\ (forall l, ~ In l (feed p) -> σ' l = σ l)
    /\ (List.NoDup (feed p) ->
        forall l, In l (feed p) -> σ' l = without_first_image (σ l))
    /\ (forall body l,
          In (res_send body) calls -> In l (feed p) ->
          In (ItemElement (σ' l)) (elements body)).
Proof.
  intros Hwf.
  destruct (render_well_formed xml p now σ Hwf) as (σ' & m & _ & Hh & Hr).
  exists σ', m, (calls_after xml p m now σ' [] (List.map Wrap (feed p))).
  split; [exact Hr|]. split; [exact Hh|]. split; [|split].
  - intros l Hl. rewrite Hh.
    apply (count_occ_not_In Nat.eq_dec) in Hl. rewrite Hl. reflexivity.
  - intros Hnd l Hl. rewrite Hh.
    rewrite (proj1 (NoDup_count_occ' Nat.eq_dec (feed p)) Hnd l Hl). reflexivity.
  - intros body l Hin Hl.
    apply calls_after_send in Hin as (data & Hdata & -> & _).
    apply feedMetaTags_Ok in Hdata as [_ ->].
    cbn [resolve elements channel wrapInTopLevel].
    rewrite map_app. apply in_or_app. right.
    rewrite !map_map. apply in_map_iff. exists l. split; [reflexivity|exact Hl].
Qed.

Lemma render_splices_caller_arrays_witness :
  well_formed [0%nat; 1%nat] Fixtures.illustrated
  /\ exists σ' m calls,
       render Fixtures.xml {| feed := [0%nat; 1%nat]; meta := Fixtures.show; attr := None |}
              Fixtures.noon Fixtures.illustrated
       = Settled σ' m calls
       /\ σ' 0%nat = [ tag "title" (VStr "Ep1"); tag "category" (VStr "News") ]
       /\ σ' 1%nat = [ tag "title" (VStr "Ep2") ]
       /\ σ' 2%nat = Fixtures.illustrated 2%nat.
Proof.
  assert (Hwf : well_formed [0%nat; 1%nat] Fixtures.illustrated).
  { intros l [<-|[<-|[]]]; repeat constructor. }
  split; [exact Hwf|].
  destruct (render_splices_caller_arrays Fixtures.xml
              {| feed := [0%nat; 1%nat]; meta := Fixtures.show; attr := None |}
              Fixtures.noon Fixtures.illustrated Hwf)
    as (σ' & m & calls & Hr & Hall & Hout & _ & _).
  exists σ', m, calls. split; [exact Hr|].
  split; [rewrite Hall; reflexivity|].
  split; [rewrite Hall; reflexivity|].
  apply Hout. cbn. intros [H|[H|[]]]; discriminate H.
Defined.

(** C9, as stated, fails: array 0 is the non-empty array [[{title:'Ep1'}]],
    and after [render] it still holds every record it held before. *)
Lemma render_preserves_imageless_array :
  Fixtures.plain 0%nat = [ tag "title" (VStr "Ep1") ]
  /\ exists σ' m calls,
       render Fixtures.xml {| feed := [0%nat]; meta := Fixtures.show; attr := None |}
              Fixtures.noon Fixtures.plain
       = Settled σ' m calls
       /\ σ' 0%nat = Fixtures.plain 0%nat.
Proof.
  split; [reflexivity|].
  rewrite render_stages. cbn [feed meta hoistImage].
  eexists _, _, _. split; reflexivity.
Qed.

(** C4 (amended): in a render that settles, the Meta handed to the assembler
    is exactly the caller's Meta with [image] replaced by [{ url }] when the
    first entry with a truthy [image] in the first FeedItem yields a truthy
    [url], and exactly the caller's Meta otherwise (empty feed, no such
    entry, or no truthy [url]); no other FeedItem is consulted.  When a body
    is written, its channel image record is built from that Meta alone (so a
    caller-supplied [Meta.image] stays in force when the first item gives no
    url), and, if every FeedItem holds at most one entry with a truthy
    [image], no emitted item contains such an entry. *)
Theorem render_image_handling (xml : serializer) (p : payload) (now : clock)
    (σ σ' : heap) (m : Meta) (calls : list call) :
  render xml p now σ = Settled σ' m calls ->
  m = hoisted_meta (meta p) (feed p) σ
  /\ (forall first rest pre x post,
        feed p = first :: rest ->
        σ first = pre ++ x :: post ->
        no_image pre -> is_image x = true ->
        m = if truthy (get_image_url x)
            then set_image (meta p) (tag "url" (get_image_url x))
            else meta p)
  /\ (feed p = []
      \/ (exists first rest, feed p = first :: rest /\ no_image (σ first)) ->
      m = meta p)
  /\ (forall body,
        In (res_send body) calls ->
        exists rest,
          elements body =
          List.map Plain (site_tags m now ++ opt_tags (opt m) ++ image_tags m) ++ rest)
  /\ ((forall l, In l (feed p) -> at_most_one_image (σ l)) ->
      forall body entries,
        In (res_send body) calls ->
        In (ItemElement entries) (elements body) ->
        no_image entries).
Proof.
  rewrite render_stages.
  destruct (hoistImage (feed p) (meta p) σ) as [m0|e] eqn:Hm; [|discriminate].
  cbn zeta. intros [= <- <- <-].
  apply hoistImage_exact in Hm.
  split; [exact Hm|]. split; [|split].
  { intros first rest pre x post Hfeed Hs Hpre Hx.
    rewrite Hm, Hfeed. cbn [hoisted_meta].
    rewrite Hs, (find_first_image pre x post Hpre Hx). reflexivity. }
  { intros [Hfeed | (first & rest & Hfeed & Hno)]; rewrite Hm, Hfeed;
      cbn [hoisted_meta]; [reflexivity|].
    rewrite (find_no_image _ Hno). reflexivity. }
  set (items := Highland.map wrapInItem (Highland.of_array (feed p)) σ).
  split.
  - intros body Hin.
    apply calls_after_send in Hin as (data & Hdata & -> & _).
    apply feedMetaTags_Ok in Hdata as [_ ->].
    exists (List.map Plain
              (if elevates m0
               then elevateCategory items.2 (Highland.values_of items.1)
               else [])
            ++ List.map (resolve_node items.2)
                 (List.map NItem (Highland.values_of items.1))).
    cbn [resolve elements channel wrapInTopLevel].
    rewrite !map_app, !map_map, <- !app_assoc. reflexivity.
  - intros Hone body entries Hin Hitem.
    apply calls_after_send in Hin as (data & Hdata & -> & _).
    apply feedMetaTags_Ok in Hdata as [_ ->].
    cbn [resolve elements channel wrapInTopLevel] in Hitem.
    rewrite map_app, !map_map in Hitem.
    apply in_app_or in Hitem as [Hitem|Hitem].
    + apply in_map_iff in Hitem as (v & Hv & _). discriminate Hv.
    + apply in_map_iff in Hitem as (w & Hw & Hgroup).
      injection Hw as <-.
      apply (normalize_strips (feed p) σ Hone w Hgroup).
Qed.

Lemma render_image_handling_witness :
  exists σ' m calls,
    render Fixtures.xml {| feed := [0%nat; 1%nat]; meta := Fixtures.show; attr := None |}
           Fixtures.noon Fixtures.illustrated
    = Settled σ' m calls
    /\ (forall l, In l [0%nat; 1%nat] -> at_most_one_image (Fixtures.illustrated l))
    /\ m = set_image Fixtures.show (tag "url" (VStr "http://i"))
    /\ (forall body entries,
          In (res_send body) calls ->
          In (ItemElement entries) (elements body) ->
          no_image entries).
Proof.
  destruct (render Fixtures.xml
              {| feed := [0%nat; 1%nat]; meta := Fixtures.show; attr := None |}
              Fixtures.noon Fixtures.illustrated) as [e|σ' m calls] eqn:Hr;
    [rewrite render_stages in Hr; discriminate Hr|].
  exists σ', m, calls. split; [reflexivity|].
  assert (Hone : forall l, In l [0%nat; 1%nat] ->
                           at_most_one_image (Fixtures.illustrated l)).
  { intros l [<-|[<-|[]]]; vm_compute; lia. }
  split; [exact Hone|].
  destruct (render_image_handling Fixtures.xml _ _ _ _ _ _ Hr)
    as (_ & Hfirst & _ & _ & Hitems).
  split; [|exact (Hitems Hone)].
  apply (Hfirst 0%nat [1%nat] [tag "title" (VStr "Ep1")]
                (tag "image" (tag "url" (VStr "http://i")))
                [tag "category" (VStr "News")]).
  - reflexivity.
  - reflexivity.
  - repeat constructor.
  - reflexivity.
Defined.

(** C4, as stated, fails: the first FeedItem [[{title:'Ep1'},{image:''}]]
    contains an [image] tag-record, and the item written to the response
    still contains it. *)
Lemma render_emits_blank_image :
  In (tag "image" (VStr "")) (Fixtures.blank_image 0%nat)
  /\ exists σ' m body,
       render Fixtures.xml {| feed := [0%nat]; meta := Fixtures.show; attr := None |}
              Fixtures.noon Fixtures.blank_image
       = Settled σ' m [ res_type "text/rss+xml"; res_send body ]
       /\ In (ItemElement [ tag "title" (VStr "Ep1"); tag "image" (VStr "") ])
             (elements body).
Proof.
  split; [right; left; reflexivity|].
  rewrite render_stages. eexists _, _, _. split; [reflexivity|].
  cbn. do 7 right. left. reflexivity.
Qed.

(** ** The envelope *)

Lemma defaultNamespaces_truthy (k : string) (v : value) :
  defaultNamespaces !! k = Some v -> truthy v = true.
Proof.
  revert k v. change (map_Forall (fun _ v => truthy v = true) defaultNamespaces).
  unfold defaultNamespaces. cbn [list_to_map foldr uncurry fst snd].
  repeat (apply map_Forall_insert_2; [reflexivity|]).
  apply map_Forall_empty.
Qed.

Lemma cleaned_lookup (obj : gmap string value) (k : string) :
  cleanNullValues obj !! k =
  match obj !! k with
  | Some v => if truthy v then Some v else None
  | None => None
  end.
Proof.
  unfold cleanNullValues. rewrite map_lookup_filter.
  destruct (obj !! k) as [v|]; [|reflexivity]. cbn.
  destruct (truthy v) eqn:Hv.
  - rewrite option_guard_True by reflexivity. reflexivity.
  - rewrite option_guard_False by discriminate. reflexivity.
Qed.

(** C6: the root attributes are the default namespace set overridden key by
    key by the caller's map, with every falsy-valued attribute dropped: an
    attribute the caller supplies is kept with the caller's value when that
    value is truthy and is absent when it is falsy, whatever the default
    was; any other attribute has its default.  With no override map the
    attributes are exactly the defaults, and [{ "xmlns:custom": null }]
    leaves the root without an [xmlns:custom] attribute. *)
Theorem wrapInTopLevel_attributes :
  (forall (data : list node) (attr : gmap string value) (k : string),
      _attr (wrapInTopLevel data (Some attr)) !! k =
      match attr !! k with
      | Some v => if truthy v then Some v else None
      | None => defaultNamespaces !! k
      end)
  /\ (forall data : list node, _attr (wrapInTopLevel data None) = defaultNamespaces)
  /\ (forall data : list node,
        _attr (wrapInTopLevel data (Some {[ "xmlns:custom" := VNull ]}))
        = defaultNamespaces)
  /\ map_to_list defaultNamespaces ≡ₚ
       [ ("version", VStr "2.0");
         ("xmlns:content", VStr "http://purl.org/rss/1.0/modules/content/");
         ("xmlns:mi", VStr "http://schemas.ingestion.microsoft.com/common/");
         ("xmlns:dc", VStr "http://purl.org/dc/elements/1.1/");
         ("xmlns:media", VStr "http://search.yahoo.com/mrss/") ]
  /\ (forall (data : list node) (attr : option (gmap string value)),
        channel (wrapInTopLevel data attr) = data).
Proof.
  assert (Hlookup : forall (attr : gmap string value) (k : string),
    cleanNullValues (Object_assign defaultNamespaces attr) !! k =
    match attr !! k with
    | Some v => if truthy v then Some v else None
    | None => defaultNamespaces !! k
    end).
  { intros attr k. rewrite cleaned_lookup. unfold Object_assign.
    rewrite lookup_union. destruct (attr !! k) as [v|] eqn:Ha.
    - destruct (defaultNamespaces !! k); reflexivity.
    - rewrite (left_id_L None _).
      destruct (defaultNamespaces !! k) as [d|] eqn:Hd; [|reflexivity].
      rewrite (defaultNamespaces_truthy _ _ Hd). reflexivity. }
  split; [intros data attr k; apply Hlookup|].
  split.
  { intros data. cbn [wrapInTopLevel _attr default from_option id]. apply map_eq. intros k.
    rewrite Hlookup, lookup_empty. reflexivity. }
  split.
  { intros data. cbn [wrapInTopLevel _attr default from_option id]. apply map_eq. intros k.
    rewrite Hlookup.
    destruct (decide (k = "xmlns:custom")) as [->|Hne].
    - rewrite lookup_singleton_eq. reflexivity.
    - rewrite lookup_singleton_ne by congruence. reflexivity. }
  split; [|reflexivity].
  unfold defaultNamespaces. apply map_to_list_to_map.
  apply (bool_decide_unpack _). vm_compute. exact I.
Qed.

(** A Meta.image supplied by the caller reaches the channel when the first
    FeedItem has no image. *)
Example render_uses_caller_image :
  exists σ' m body,
    render Fixtures.xml {| feed := [0%nat]; meta := Fixtures.branded; attr := None |}
           Fixtures.noon Fixtures.plain
    = Settled σ' m [ res_type "text/rss+xml"; res_send body ]
    /\ elements body !! 7%nat =
       Some (Plain (tag "image" (VArr [ tag "url" (VStr "http://c");
                                        tag "link" (VStr "http://x");
                                        tag "title" (VStr "Show") ]))).
Proof. rewrite render_stages. eexists _, _, _. split; reflexivity. Qed.

(** ** Failure paths *)

(** C2 (amended): in a render that settles, every exception raised inside
    the stream pipeline reaches the Error Responder through the stream's
    error handler, and the no-data error and an exception of the serializer
    reach it through the promise's catch handler.  The calls are the Error
    Responder's calls for each exception of the entry normalizer, in feed
    order, followed by one of three endings: when the assembler returns and
    the serializer returns, the content type and the body; when the
    assembler returns and the serializer throws, the content type and then
    the Error Responder's calls for that exception, without a body; when the
    assembler throws, the Error Responder's calls for its error and then for
    the no-data error, with neither a content type nor a body. *)
Theorem render_routes_pipeline_errors (xml : serializer) (p : payload)
    (now : clock) (σ σ' : heap) (m : Meta) (calls : list call) :
  render xml p now σ = Settled σ' m calls ->
  let items := Highland.map wrapInItem (Highland.of_array (feed p)) σ in
  let raised := Highland.errors_of items.1 in
  match feedMetaTags m now σ' (Highland.values_of items.1) with
  | Ok data =>
      let body := resolve σ' (wrapInTopLevel data (attr p)) in
      match xml body with
      | Ok _ =>
          calls = flat_map sendError raised
                  ++ [ res_type "text/rss+xml"; res_send body ]
      | Throw e =>
          calls = flat_map sendError raised
                  ++ res_type "text/rss+xml" :: sendError e
          /\ (forall sent, ~ In (res_send sent) calls)
      end
  | Throw e =>
      calls = flat_map sendError raised
              ++ sendError e ++ sendError EmptyPipelineResultError
      /\ (forall mime, ~ In (res_type mime) calls)
      /\ (forall body, ~ In (res_send body) calls)
  end.
Proof.
  rewrite render_stages.
  destruct (hoistImage (feed p) (meta p) σ) as [m0|e0]; [|discriminate].
  cbn zeta. intros [= <- <- <-]. unfold calls_after, success_calls.
  destruct (feedMetaTags m0 now _ _) as [data|e].
  - destruct (xml _) as [text|e]; [reflexivity|].
    split; [reflexivity|]. intros sent Hin.
    apply in_app_or in Hin as [Hin|Hin]; [not_a_response Hin|].
    destruct Hin as [Hin|[Hin|[Hin|[Hin|[]]]]]; discriminate Hin.
  - split; [rewrite flat_map_app; cbn; reflexivity|].
    split; intros x Hin; not_a_response Hin.
Qed.

Lemma render_routes_pipeline_errors_witness :
  exists σ' m calls,
    render Fixtures.xml {| feed := [0%nat; 1%nat]; meta := Fixtures.untitled; attr := None |}
           Fixtures.noon Fixtures.broken
    = Settled σ' m calls
    /\ calls = sendError (TypeError "image" VNull)
               ++ sendError MissingRequiredFieldError
               ++ sendError EmptyPipelineResultError
    /\ (forall body, ~ In (res_send body) calls).
Proof.
  eexists _, _, _. split; [rewrite render_stages; reflexivity|].
  pose proof (render_routes_pipeline_errors Fixtures.xml
    {| feed := [0%nat; 1%nat]; meta := Fixtures.untitled; attr := None |}
    Fixtures.noon Fixtures.broken _ _ _ ltac:(rewrite render_stages; reflexivity))
    as H.
  cbn in H. destruct H as (Hcalls & _ & Hsend).
  split; [exact Hcalls | exact Hsend].
Defined.

(** C2, as stated, fails: with an empty feed and a Meta without [title] the
    render fails, and the Error Responder writes its status and its JSON body
    twice, first for the assembler's error and then for the no-data error. *)
Lemma render_reports_failure_twice :
  exists σ' m,
    render Fixtures.xml {| feed := []; meta := Fixtures.untitled; attr := None |}
           Fixtures.noon Fixtures.plain
    = Settled σ' m
        [ res_status 500;
          res_json 500
            "A `title`, `description` and `link` property are all required in the `meta` object for the RSS renderer";
          log_call "error"
            "A `title`, `description` and `link` property are all required in the `meta` object for the RSS renderer"
            MissingRequiredFieldError;
          res_status 500;
          res_json 500 "No data sent to XML renderer, cannot respond";
          log_call "error" "No data sent to XML renderer, cannot respond"
            EmptyPipelineResultError ].
Proof. eexists _, _. reflexivity. Qed.

(** An unreadable entry in the first FeedItem makes the image-hoisting step
    throw to the caller: no promise, no call on [res]. *)
Example render_throws_on_unreadable_first_item :
  render Fixtures.xml {| feed := [1%nat]; meta := Fixtures.show; attr := None |}
         Fixtures.noon Fixtures.broken
  = Thrown (TypeError "image" VNull).
Proof. reflexivity. Qed.

(** A [null] entry behind the image entry of the first FeedItem passes the
    image step and the normalizer and reaches the serializer: the content
    type is already written when the serializer throws, and the Error
    Responder's calls follow it. *)
Example render_reports_serializer_failure :
  exists σ' m,
    render Fixtures.xml {| feed := [0%nat]; meta := Fixtures.show; attr := None |}
           Fixtures.noon Fixtures.trailing_null
    = Settled σ' m
        [ res_type "text/rss+xml";
          res_status 500;
          res_json 500 "Cannot convert undefined or null to object";
          log_call "error" "Cannot convert undefined or null to object"
            (SerializerError "Cannot convert undefined or null to object") ]
    /\ σ' 0%nat = [ VNull ].
Proof. rewrite render_stages. eexists _, _. split; reflexivity. Qed.

(** An unreadable entry in a later FeedItem is reported, that item is left
    out, and the success response is written all the same. *)
Example render_reports_and_responds :
  exists σ' m body,
    render Fixtures.xml {| feed := [0%nat; 1%nat]; meta := Fixtures.show; attr := None |}
           Fixtures.noon Fixtures.broken
    = Settled σ' m
        (sendError (TypeError "image" VNull)
         ++ [ res_type "text/rss+xml"; res_send body ])
    /\ List.filter (fun el => match el with ItemElement _ => true | Plain _ => false end)
         (elements body)
       = [ ItemElement [ tag "title" (VStr "Ep1") ] ].
Proof.
  rewrite render_stages. eexists _, _, _. split; reflexivity.
Qed.

(** C5: when the feed's entries can all be read and Meta lacks a truthy
    [title], [description] or [link], the metadata assembler throws the
    required-field error whatever the items are, and the render settles
    having written status 500 and the JSON body [{status: 500, message}] with
    that error's message, and having logged the message with the error's
    stack at "error" severity; neither a content type nor an XML body is ever
    written.  (The no-data error that follows is reported the same way.) *)
Theorem render_missing_required_field (xml : serializer) (p : payload) (now : clock) (σ : heap) :
  well_formed (feed p) σ ->
  truthy (title (meta p)) = false
  \/ truthy (description (meta p)) = false
  \/ truthy (link (meta p)) = false ->
  exists σ' m calls rest,
    render xml p now σ = Settled σ' m calls
    /\ (forall group, feedMetaTags m now σ' group = Throw MissingRequiredFieldError)
    /\ calls =
       [ res_status 500;
         res_json 500
           "A `title`, `description` and `link` property are all required in the `meta` object for the RSS renderer";
         log_call "error"
           "A `title`, `description` and `link` property are all required in the `meta` object for the RSS renderer"
           MissingRequiredFieldError ] ++ rest
    /\ rest = sendError EmptyPipelineResultError
    /\ (forall mime, ~ In (res_type mime) calls)
    /\ (forall body, ~ In (res_send body) calls)
    /\ (forall code, In (res_status code) calls -> code = 500).
Proof.
  intros Hwf Hmissing.
  destruct (render_well_formed xml p now σ Hwf) as (σ' & m & Hm & _ & Hr).
  apply hoistImage_required in Hm as (Ht & Hd & Hl & _).
  assert (Hthrow : forall group,
             feedMetaTags m now σ' group = Throw MissingRequiredFieldError).
  { intros group. apply feedMetaTags_missing. rewrite Ht, Hd, Hl. exact Hmissing. }
  exists σ', m, (calls_after xml p m now σ' [] (List.map Wrap (feed p))),
    (sendError EmptyPipelineResultError).
  split; [exact Hr|]. split; [exact Hthrow|].
  unfold calls_after. rewrite Hthrow.
  split; [reflexivity|]. split; [reflexivity|].
  split; [|split].
  - intros mime Hin. not_a_response Hin.
  - intros body Hin. not_a_response Hin.
  - intros code Hin. cbn in Hin.
    repeat (destruct Hin as [Hin|Hin]; [try discriminate Hin; injection Hin as <-; reflexivity|]).
    destruct Hin.
Qed.

Lemma render_missing_required_field_witness :
  well_formed [0%nat; 1%nat] Fixtures.episodes
  /\ truthy (title Fixtures.untitled) = false
  /\ exists σ' m calls,
       render Fixtures.xml {| feed := [0%nat; 1%nat]; meta := Fixtures.untitled; attr := None |}
              Fixtures.noon Fixtures.episodes
       = Settled σ' m calls
       /\ (forall body, ~ In (res_send body) calls)
       /\ hd_error calls = Some (res_status 500).
Proof.
  assert (Hwf : well_formed [0%nat; 1%nat] Fixtures.episodes).
  { intros l [<-|[<-|[]]]; repeat constructor. }
  split; [exact Hwf|]. split; [reflexivity|].
  destruct (render_missing_required_field Fixtures.xml
              {| feed := [0%nat; 1%nat]; meta := Fixtures.untitled; attr := None |}
              Fixtures.noon Fixtures.episodes Hwf (or_introl eq_refl))
    as (σ' & m & calls & rest & Hr & _ & Hcalls & _ & _ & Hsend & _).
  exists σ', m, calls. split; [exact Hr|]. split; [exact Hsend|].
  rewrite Hcalls. reflexivity.
Defined.

(** ** The channel *)

(** C7 (amended): for a feed whose entries can all be read and a Meta with
    truthy [title], [description] and [link], the render reaches the
    serializer: the content type is written, then the body when the
    serializer returns on the assembled document, and the Error Responder's
    calls for its exception otherwise.  The channel of that document is, in
    this order: [title], [description], [link] with the Meta values,
    [lastBuildDate], [docs] (the Meta value unless it is absent, then the
    RSS-spec URL), [copyright] (the Meta value when it is truthy, the current
    year otherwise), [generator] (the Meta value unless it is absent, then
    the platform label), the [Meta.opt] records, the image record if
    [Meta.image] is truthy after hoisting, the derived category records (one
    per item that has categories) unless elevation is switched off, and the
    wrapped items in feed order. *)
Theorem render_channel_layout (xml : serializer) (p : payload) (now : clock)
    (σ : heap) :
  well_formed (feed p) σ ->
  truthy (title (meta p)) = true ->
  truthy (description (meta p)) = true ->
  truthy (link (meta p)) = true ->
  exists σ' m body,
    render xml p now σ =
    Settled σ' m
      (res_type "text/rss+xml"
       :: match xml body with
          | Ok _ => [ res_send body ]
          | Throw e => sendError e
          end)
    /\ elements body =
       List.map Plain
         ([ tag "title" (title (meta p));
            tag "description" (description (meta p));
            tag "link" (link (meta p));
            tag "lastBuildDate" (VStr (rfc822 now));
            tag "docs" (match docs (meta p) with
                        | VUndef => VStr docsUrl
                        | _ => docs (meta p)
                        end);
            tag "copyright" (if truthy (copyright (meta p))
                             then copyright (meta p)
                             else VNum (getFullYear now));
            tag "generator" (match generator (meta p) with
                             | VUndef => VStr generatorMessage
                             | _ => generator (meta p)
                             end) ]
          ++ opt_tags (opt (meta p))
          ++ image_tags m
          ++ (if elevates (meta p)
              then flat_map (fun l => category_tags (σ' l)) (feed p)
              else []))
       ++ List.map (fun l => ItemElement (σ' l)) (feed p).
Proof.
  intros Hwf Ht Hd Hl.
  destruct (render_well_formed xml p now σ Hwf) as (σ' & m & Hm & _ & Hr).
  apply hoistImage_required in Hm
    as (Et & Ed & El & Ec & Eg & Edocs & Eopt & Eflag).
  exists σ', m. eexists. split.
  - rewrite Hr. unfold calls_after.
    rewrite feedMetaTags_valid by (rewrite ?Et, ?Ed, ?El; assumption).
    reflexivity.
  - cbn [resolve elements channel wrapInTopLevel].
    rewrite map_app, !map_map, elevateCategory_per_item, flat_map_concat_map,
      map_map, <- flat_map_concat_map.
    unfold site_tags, elevates, or_default.
    rewrite Et, Ed, El, Ec, Eg, Edocs, Eopt, Eflag. reflexivity.
Qed.

Lemma render_channel_layout_witness :
  well_formed [0%nat; 1%nat] Fixtures.illustrated
  /\ exists σ' m body,
       render Fixtures.xml {| feed := [0%nat; 1%nat]; meta := Fixtures.show; attr := None |}
              Fixtures.noon Fixtures.illustrated
       = Settled σ' m [ res_type "text/rss+xml"; res_send body ]
       /\ elements body =
          [ Plain (tag "title" (VStr "Show"));
            Plain (tag "description" (VStr "D"));
            Plain (tag "link" (VStr "http://x"));
            Plain (tag "lastBuildDate" (VStr "Mon, 02 Nov 2026 12:00:00 +0000"));
            Plain (tag "docs" (VStr "http://blogs.law.harvard.edu/tech/rss"));
            Plain (tag "copyright" (VNum 2026));
            Plain (tag "generator" (VStr "Feed delivered by Clay"));
            Plain (tag "image" (VArr [ tag "url" (VStr "http://i");
                                       tag "link" (VStr "http://x");
                                       tag "title" (VStr "Show") ]));
            Plain (tag "category" (VStr "News"));
            ItemElement [ tag "title" (VStr "Ep1"); tag "category" (VStr "News") ];
            ItemElement [ tag "title" (VStr "Ep2") ] ].
Proof.
  assert (Hwf : well_formed [0%nat; 1%nat] Fixtures.illustrated).
  { intros l [<-|[<-|[]]]; repeat constructor. }
  split; [exact Hwf|].
  destruct (render_channel_layout Fixtures.xml
              {| feed := [0%nat; 1%nat]; meta := Fixtures.show; attr := None |}
              Fixtures.noon Fixtures.illustrated Hwf eq_refl eq_refl eq_refl)
    as (σ' & m & body & Hr & Hel).
  assert (Hσ' : σ' 0%nat = [ tag "title" (VStr "Ep1"); tag "category" (VStr "News") ]
                /\ σ' 1%nat = [ tag "title" (VStr "Ep2") ]
                /\ m = set_image Fixtures.show (tag "url" (VStr "http://i"))).
  { pose proof Hr as Hs. rewrite render_stages in Hs.
    cbn [hoistImage feed meta] in Hs. injection Hs as <- <- _.
    repeat split; reflexivity. }
  destruct Hσ' as (H0 & H1 & ->).
  cbn [feed meta map flat_map app] in Hel. rewrite H0, H1 in Hel.
  assert (Hxml : Fixtures.xml body = Ok "")
    by (unfold Fixtures.xml, item_elements; rewrite Hel; reflexivity).
  rewrite Hxml in Hr.
  exists σ', (set_image Fixtures.show (tag "url" (VStr "http://i"))), body.
  split; [exact Hr|]. rewrite Hel. reflexivity.
Defined.

(** C7, as stated, fails: the caller supplies [copyright: ''], and the
    channel's [copyright] is the current year, not the supplied value. *)
Lemma render_replaces_blank_copyright :
  copyright Fixtures.blank_copyright = VStr ""
  /\ exists σ' m body,
       render Fixtures.xml {| feed := []; meta := Fixtures.blank_copyright; attr := None |}
              Fixtures.noon Fixtures.plain
       = Settled σ' m [ res_type "text/rss+xml"; res_send body ]
       /\ elements body !! 5%nat = Some (Plain (tag "copyright" (VNum 2026))).
Proof.
  split; [reflexivity|].
  rewrite render_stages. eexists _, _, _. split; reflexivity.
Qed.

(** C10: whenever the assembler returns, the sixth channel record is
    [copyright], and a falsy [Meta.copyright] (absent, but also a supplied
    [0] or ['']) makes its value the current year, while a truthy one is
    emitted as supplied. *)
Theorem feedMetaTags_copyright_by_truthiness (m : Meta) (now : clock) (σ : heap)
    (group : list wrapped) (data : list node) :
  feedMetaTags m now σ group = Ok data ->
  (truthy (copyright m) = false ->
   data !! 5%nat = Some (NTag (tag "copyright" (VNum (getFullYear now)))))
  /\ (copyright m = VNum 0 \/ copyright m = VStr "" ->
      data !! 5%nat = Some (NTag (tag "copyright" (VNum (getFullYear now)))))
  /\ (truthy (copyright m) = true ->
      data !! 5%nat = Some (NTag (tag "copyright" (copyright m)))).
Proof.
  intros H. apply feedMetaTags_Ok in H as [_ ->].
  unfold site_tags. cbn [List.map app lookup list_lookup].
  split; [|split].
  - intros ->. reflexivity.
  - intros [-> | ->]; reflexivity.
  - intros ->. reflexivity.
Qed.

Lemma feedMetaTags_copyright_by_truthiness_witness :
  exists data,
    feedMetaTags Fixtures.zero_copyright Fixtures.noon Fixtures.plain [] = Ok data
    /\ copyright Fixtures.zero_copyright = VNum 0
    /\ data !! 5%nat = Some (NTag (tag "copyright" (VNum 2026))).
Proof.
  eexists. split; [reflexivity|]. split; [reflexivity|].
  apply (proj1 (proj2 (feedMetaTags_copyright_by_truthiness
           Fixtures.zero_copyright Fixtures.noon Fixtures.plain [] _ eq_refl))).
  left. reflexivity.
Defined.

(** C8: whenever the assembler emits the channel image record, that is when
    [Meta.image] is truthy, the record is [image] with exactly the three
    sub-records [url], [link], [title] in this order, [url] being the [url]
    of [Meta.image] (the hoisted [{ url }]) and [link] and [title] being
    [Meta.link] and [Meta.title]; it is the only difference from the channel
    assembled without an image, and nothing is emitted for a falsy
    [Meta.image]. *)
Theorem feedMetaTags_image_record (m : Meta) (now : clock) (σ : heap)
    (group : list wrapped) (data : list node) :
  feedMetaTags m now σ group = Ok data ->
  (truthy (image m) = true ->
   exists before after,
     data = before
            ++ [ NTag (tag "image" (VArr [ tag "url" (get (image m) "url");
                                           tag "link" (link m);
                                           tag "title" (title m) ])) ]
            ++ after
     /\ feedMetaTags (set_image m VUndef) now σ group = Ok (before ++ after))
  /\ (truthy (image m) = false ->
      feedMetaTags (set_image m VUndef) now σ group = Ok data)
  /\ (forall u, image m = tag "url" u -> get (image m) "url" = u).
Proof.
  intros H. apply feedMetaTags_Ok in H as [(Ht & Hd & Hl) ->].
  pose proof (feedMetaTags_valid (set_image m VUndef) now σ group Ht Hd Hl) as Hplain.
  change (site_tags (set_image m VUndef) now) with (site_tags m now) in Hplain.
  change (opt (set_image m VUndef)) with (opt m) in Hplain.
  change (elevates (set_image m VUndef)) with (elevates m) in Hplain.
  change (image_tags (set_image m VUndef)) with (@nil value) in Hplain.
  split; [|split].
  - intros Hi.
    exists (List.map NTag (site_tags m now ++ opt_tags (opt m))),
      (List.map NTag (if elevates m then elevateCategory σ group else [])
       ++ List.map NItem group).
    unfold image_tags. rewrite Hi. split.
    + rewrite !map_app, <- !app_assoc. reflexivity.
    + rewrite Hplain, !map_app, <- !app_assoc. reflexivity.
  - intros Hi. rewrite Hplain. unfold image_tags. rewrite Hi. reflexivity.
  - intros u ->. reflexivity.
Qed.

Lemma feedMetaTags_image_record_witness :
  exists data before after,
    feedMetaTags (set_image Fixtures.show (tag "url" (VStr "http://i")))
                 Fixtures.noon Fixtures.plain [Wrap 0%nat]
    = Ok data
    /\ data = before
              ++ [ NTag (tag "image" (VArr [ tag "url" (VStr "http://i");
                                             tag "link" (VStr "http://x");
                                             tag "title" (VStr "Show") ])) ]
              ++ after
    /\ feedMetaTags Fixtures.show Fixtures.noon Fixtures.plain [Wrap 0%nat]
       = Ok (before ++ after).
Proof.
  eexists. 
  destruct (proj1 (feedMetaTags_image_record
                     (set_image Fixtures.show (tag "url" (VStr "http://i")))
                     Fixtures.noon Fixtures.plain [Wrap 0%nat] _ eq_refl) eq_refl)
    as (before & after & Hdata & Hplain).
  exists before, after. split; [reflexivity|]. split; [exact Hdata | exact Hplain].
Defined.

(** ** Category elevation *)

Lemma category_tags_length (entries : list value) :
  (length (category_tags entries) <= 1)%nat.
Proof.
  unfold category_tags.
  destruct (String.eqb (item_categories entries) ""); simpl; lia.
Qed.

Lemma category_tags_none (entries : list value) :
  Forall (fun e => has_category e = false) entries ->
  category_tags entries = [].
Proof.
  intros Hnone. unfold category_tags, item_categories.
  replace (List.filter has_category entries) with (@nil value); [reflexivity|].
  induction Hnone as [|e entries He _ IH]; simpl; [reflexivity|].
  rewrite He. exact IH.
Qed.

(** The comma-join of an item whose categories are all strings. *)
Lemma item_categories_strings (names : list string) :
  item_categories (List.map (fun s => tag "category" (VStr s))
                            (List.filter (fun s => negb (String.eqb s "")) names))
  = join "," (List.filter (fun s => negb (String.eqb s "")) names).
Proof.
  unfold item_categories, array_join. f_equal.
  induction names as [|s names IH]; [reflexivity|].
  cbn [List.filter]. destruct (String.eqb s "") eqn:Hs; cbn [negb]; [exact IH|].
  cbn [List.map List.filter]. unfold has_category at 1. cbn.
  rewrite Hs. cbn. f_equal. exact IH.
Qed.

(** C1 (amended): whenever the assembler returns, the channel is the channel
    of the empty feed, then the derived category records, then the wrapped
    items.  With [elevateChannelCategories] truthy (or absent) there is one
    derived record per item whose comma-join of truthy [category] values is
    not empty, carrying that item's join, the records standing in item
    order; so there are at most as many as items, and none when no item has
    a category.  With a falsy [elevateChannelCategories] there is none. *)
Theorem feedMetaTags_derived_categories (m : Meta) (now : clock) (σ : heap)
    (group : list wrapped) (data : list node) :
  feedMetaTags m now σ group = Ok data ->
  let derived :=
    if elevates m
    then flat_map (fun w => category_tags (σ (item w))) group
    else [] in
  (exists head,
     feedMetaTags m now σ [] = Ok head
     /\ data = head ++ List.map NTag derived ++ List.map NItem group)
  /\ (length derived <= length group)%nat
  /\ ((forall w, In w group -> Forall (fun e => has_category e = false) (σ (item w))) ->
      derived = [])
  /\ (elevates m = false -> derived = []).
Proof.
  intros H. apply feedMetaTags_Ok in H as [(Ht & Hd & Hl) ->].
  cbn zeta. split; [|split; [|split]].
  - eexists. split; [apply feedMetaTags_valid; assumption|].
    rewrite elevateCategory_per_item.
    replace (if elevates m then elevateCategory σ [] else []) with (@nil value)
      by (destruct (elevates m); reflexivity).
    rewrite !map_app, !app_nil_r, <- !app_assoc. reflexivity.
  - destruct (elevates m); [|simpl; lia].
    induction group as [|w group IH]; simpl; [lia|].
    rewrite length_app. pose proof (category_tags_length (σ (item w))). lia.
  - intros Hnone. destruct (elevates m); [|reflexivity].
    induction group as [|w group IH]; [reflexivity|].
    cbn [flat_map]. rewrite category_tags_none by (apply Hnone; left; reflexivity).
    apply IH. intros w' Hw'. apply Hnone. right. exact Hw'.
  - intros ->. reflexivity.
Qed.

Lemma feedMetaTags_derived_categories_witness :
  exists data head,
    feedMetaTags Fixtures.show Fixtures.noon Fixtures.episodes
                 [Wrap 0%nat; Wrap 1%nat]
    = Ok data
    /\ feedMetaTags Fixtures.show Fixtures.noon Fixtures.episodes [] = Ok head
    /\ data = head
              ++ [ NTag (tag "category" (VStr "News"));
                   NTag (tag "category" (VStr "Tech")) ]
              ++ [ NItem (Wrap 0%nat); NItem (Wrap 1%nat) ].
Proof.
  eexists.
  destruct (proj1 (feedMetaTags_derived_categories
                     Fixtures.show Fixtures.noon Fixtures.episodes
                     [Wrap 0%nat; Wrap 1%nat] _ eq_refl))
    as (head & Hhead & Hdata).
  exists head. split; [reflexivity|]. split; [exact Hhead | exact Hdata].
Defined.

(** C1, as stated, fails on the specification's own example: for the items
    [[{title:'Ep1'},{category:'News'}]] and [[{title:'Ep2'},{category:'Tech'}]]
    the channel carries two derived category records, [News] and [Tech], and
    no record with the joined value [News,Tech]. *)
Lemma render_emits_one_category_per_item :
  exists σ' m body,
    render Fixtures.xml {| feed := [0%nat; 1%nat]; meta := Fixtures.show; attr := None |}
           Fixtures.noon Fixtures.episodes
    = Settled σ' m [ res_type "text/rss+xml"; res_send body ]
    /\ elements body =
       [ Plain (tag "title" (VStr "Show"));
         Plain (tag "description" (VStr "D"));
         Plain (tag "link" (VStr "http://x"));
         Plain (tag "lastBuildDate" (VStr "Mon, 02 Nov 2026 12:00:00 +0000"));
         Plain (tag "docs" (VStr "http://blogs.law.harvard.edu/tech/rss"));
         Plain (tag "copyright" (VNum 2026));
         Plain (tag "generator" (VStr "Feed delivered by Clay"));
         Plain (tag "category" (VStr "News"));
         Plain (tag "category" (VStr "Tech"));
         ItemElement [ tag "title" (VStr "Ep1"); tag "category" (VStr "News") ];
         ItemElement [ tag "title" (VStr "Ep2"); tag "category" (VStr "Tech") ] ]
    /\ ~ In (Plain (tag "category" (VStr "News,Tech"))) (elements body).
Proof.
  rewrite render_stages. eexists _, _, _. split; [reflexivity|].
  split; [reflexivity|].
  cbn. intros H.
  repeat (destruct H as [H|H]; [discriminate H|]). exact H.
Qed.

(** ** The earlier revisions *)

(** In the first revision a non-empty array without an image entry loses its
    last record. *)
Example first_revision_drops_last_record :
  exists σ',
    FirstRevision.wrapInItem 0%nat Fixtures.episodes = Ok (Wrap 0%nat, σ')
    /\ σ' 0%nat = [ tag "title" (VStr "Ep1") ].
Proof. eexists. split; reflexivity. Qed.

(** In the podcast revision the image entry stays in the item. *)
Example podcast_revision_keeps_image :
  PodcastRevision.wrapInItem 0%nat Fixtures.illustrated
  = Ok (Wrap 0%nat, Fixtures.illustrated).
Proof. reflexivity. Qed.

(** In the podcast revision the root carries [version] only, whatever the
    caller passes. *)
Lemma podcast_revision_attributes (data : list node)
    (attr : option (gmap string value)) :
  _attr (PodcastRevision.wrapInTopLevel data attr) = {[ "version" := VStr "2.0" ]}.
Proof.
  unfold PodcastRevision.wrapInTopLevel, PodcastRevision.cleanNullValues.
  cbn [_attr default from_option]. apply (left_id_L ∅ (∪)).
Qed.

(** * Further properties of the code *)

(** ** The image scan *)

Lemma index_app_l (pre post : list value) (i : Z) :
  0 <= i < Z.of_nat (length pre) ->
  exists y, pre !! Z.to_nat i = Some y /\ index (pre ++ post) i = y.
Proof.
  intros Hi. unfold index.
  replace (i <? 0) with false by (symmetry; apply Z.ltb_ge; lia).
  destruct (lookup_lt_is_Some_2 pre (Z.to_nat i)) as [y Hy]; [lia|].
  exists y. split; [exact Hy|].
  rewrite lookup_app_l by lia. rewrite Hy. reflexivity.
Qed.

Lemma findIndex_from_found (k : string) (pre : list value) (x : value)
    (post : list value) :
  Forall (fun y => defined y /\ truthy (get y k) = false) pre ->
  defined x -> truthy (get x k) = true ->
  forall i, findIndex_from i (pre ++ x :: post) k = Ok (i + Z.of_nat (length pre)).
Proof.
  induction 1 as [|y pre [Hy Hty] _ IH]; intros Hx Htx i; simpl.
  - rewrite (member_defined _ _ Hx). simpl. rewrite Htx. f_equal. lia.
  - rewrite (member_defined _ _ Hy). simpl. rewrite Hty.
    rewrite (IH Hx Htx). f_equal. lia.
Qed.

Lemma findIndex_from_absent (k : string) (xs : list value) :
  Forall (fun y => defined y /\ truthy (get y k) = false) xs ->
  forall i, findIndex_from i xs k = Ok (-1).
Proof.
  induction 1 as [|y xs [Hy Hty] _ IH]; intros i; simpl; [reflexivity|].
  rewrite (member_defined _ _ Hy). simpl. rewrite Hty. apply IH.
Qed.

Lemma findIndex_from_nullish (k : string) (pre : list value) (x : value)
    (post : list value) :
  Forall (fun y => defined y /\ truthy (get y k) = false) pre ->
  nullish x = true ->
  forall i, findIndex_from i (pre ++ x :: post) k = Throw (TypeError k x).
Proof.
  induction 1 as [|y pre [Hy Hty] _ IH]; intros Hx i; simpl.
  - unfold member. rewrite Hx. reflexivity.
  - rewrite (member_defined _ _ Hy). simpl. rewrite Hty. apply IH. exact Hx.
Qed.

(** [findIndexOfElementInArray] answers [-1] only for an array in which no
    entry has a truthy [element] property, and otherwise the position, within
    the bounds of the array, of the first entry that has one: the entry at the
    answer passes the test and no entry before it does. *)
Theorem findIndexOfElementInArray_first_match (array : list value)
    (element : string) (j : Z) :
  findIndexOfElementInArray array element = Ok j ->
  (j = -1 /\ Forall (fun x => truthy (get x element) = false) array)
  \/ (0 <= j < Z.of_nat (length array)
      /\ truthy (get (index array j) element) = true
      /\ forall i, 0 <= i < j -> truthy (get (index array i) element) = false).
Proof.
  unfold findIndexOfElementInArray. intros H.
  apply findIndex_from_Ok in H
    as [[-> Hall] | (pre & x & post & -> & Hpre & Hx & Htx & ->)].
  - left. split; [reflexivity|].
    eapply List.Forall_impl; [|exact Hall]. intros y [_ Hy]. exact Hy.
  - right. rewrite length_app. cbn [length]. split; [lia|]. split.
    + rewrite index_middle. exact Htx.
    + intros i Hi.
      destruct (index_app_l pre (x :: post) i) as (y & Hy & ->); [lia|].
      apply (Forall_lookup_1 _ _ _ _ Hpre) in Hy. apply Hy.
Qed.

Lemma findIndexOfElementInArray_first_match_witness :
  findIndexOfElementInArray (Fixtures.illustrated 0%nat) "image" = Ok 1
  /\ truthy (get (index (Fixtures.illustrated 0%nat) 1) "image") = true
  /\ truthy (get (index (Fixtures.illustrated 0%nat) 0) "image") = false.
Proof.
  split; [reflexivity|].
  destruct (findIndexOfElementInArray_first_match
              (Fixtures.illustrated 0%nat) "image" 1 eq_refl)
    as [[Hneg _] | (_ & Hat & Hbefore)]; [discriminate Hneg|].
  split; [exact Hat|]. apply Hbefore. lia.
Defined.

(** [findIndexOfElementInArray] throws exactly when a [null] or [undefined]
    entry stands before every entry with a truthy [element] property; the
    error names the property and that entry.  An entry after the first match
    is never inspected. *)
Theorem findIndexOfElementInArray_throws (array : list value) (element : string)
    (e : Error) :
  findIndexOfElementInArray array element = Throw e <->
  exists pre x post,
    array = pre ++ x :: post
    /\ Forall (fun y => defined y /\ truthy (get y element) = false) pre
    /\ nullish x = true
    /\ e = TypeError element x.
Proof.
  unfold findIndexOfElementInArray. split.
  - apply findIndex_from_Throw.
  - intros (pre & x & post & -> & Hpre & Hx & ->).
    apply findIndex_from_nullish; assumption.
Qed.

Lemma findIndexOfElementInArray_throws_witness :
  findIndexOfElementInArray [ tag "title" (VStr "Ep1"); VNull;
                              tag "image" (VStr "http://i") ] "image"
  = Throw (TypeError "image" VNull)
  /\ findIndexOfElementInArray [ tag "image" (VStr "http://i"); VNull ] "image"
     = Ok 0.
Proof.
  split; [|reflexivity].
  apply (proj2 (findIndexOfElementInArray_throws _ "image" _)).
  exists [tag "title" (VStr "Ep1")], VNull, [tag "image" (VStr "http://i")].
  repeat split; repeat constructor.
Defined.

(** ** The entry normalizer, once more *)

Lemma without_first_image_sublist (xs : list value) :
  sublist (without_first_image xs) xs.
Proof.
  induction xs as [|x xs IH]; simpl; [constructor|].
  destruct (is_image x); [apply sublist_cons; reflexivity | apply sublist_skip; exact IH].
Qed.

Lemma without_first_image_length (xs : list value) :
  length (without_first_image xs) =
  (length xs - (if existsb is_image xs then 1 else 0))%nat.
Proof.
  induction xs as [|x xs IH]; simpl; [reflexivity|].
  destruct (is_image x); simpl; [lia|].
  rewrite IH. destruct (existsb is_image xs) eqn:Hex; [|lia].
  destruct xs as [|y ys]; [discriminate Hex | simpl; lia].
Qed.

(** Whenever [wrapInItem] returns, the array it was given has only lost
    entries: what is left is a subsequence of what was there, shorter by one
    exactly when some entry had a truthy [image] and of the same length
    otherwise. *)
Theorem wrapInItem_only_removes (entry : loc) (σ : heap) (w : wrapped) (σ' : heap) :
  wrapInItem entry σ = Ok (w, σ') ->
  sublist (σ' entry) (σ entry)
  /\ length (σ' entry) =
     (length (σ entry) - (if existsb is_image (σ entry) then 1 else 0))%nat.
Proof.
  intros H. apply wrapInItem_Ok in H as [_ Hσ'].
  rewrite Hσ', decide_True by reflexivity.
  split; [apply without_first_image_sublist | apply without_first_image_length].
Qed.

Lemma wrapInItem_only_removes_witness :
  exists σ',
    wrapInItem 1%nat Fixtures.illustrated = Ok (Wrap 1%nat, σ')
    /\ sublist (σ' 1%nat) (Fixtures.illustrated 1%nat)
    /\ length (σ' 1%nat) = 1%nat.
Proof.
  eexists. split; [reflexivity|].
  destruct (wrapInItem_only_removes 1%nat Fixtures.illustrated _ _ eq_refl)
    as [Hsub Hlen].
  split; [exact Hsub | exact Hlen].
Defined.

(** Normalizing twice is normalizing once: on an array whose entries can be
    read and which holds at most one entry with a truthy [image], a second
    [wrapInItem] finds nothing to remove. *)
Theorem wrapInItem_twice (entry : loc) (σ : heap) :
  Forall defined (σ entry) ->
  at_most_one_image (σ entry) ->
  exists σ1 σ2,
    wrapInItem entry σ = Ok (Wrap entry, σ1)
    /\ wrapInItem entry σ1 = Ok (Wrap entry, σ2)
    /\ forall l, σ2 l = σ1 l.
Proof.
  intros Hd Hone.
  destruct (wrapInItem_defined entry σ Hd) as [σ1 H1].
  pose proof (wrapInItem_Ok _ _ _ _ H1) as [_ Hσ1].
  assert (Hd1 : Forall defined (σ1 entry)).
  { rewrite Hσ1, decide_True by reflexivity.
    apply Forall_defined_without_first_image. exact Hd. }
  destruct (wrapInItem_defined entry σ1 Hd1) as [σ2 H2].
  exists σ1, σ2. split; [exact H1|]. split; [exact H2|].
  apply wrapInItem_Ok in H2 as [_ Hσ2]. intros l. rewrite Hσ2.
  case_decide; [subst l|reflexivity].
  apply without_first_image_none.
  rewrite Hσ1, decide_True by reflexivity.
  apply no_image_without_first_image. exact Hone.
Qed.

Lemma wrapInItem_twice_witness :
  Forall defined (Fixtures.illustrated 0%nat)
  /\ at_most_one_image (Fixtures.illustrated 0%nat)
  /\ exists σ1 σ2,
       wrapInItem 0%nat Fixtures.illustrated = Ok (Wrap 0%nat, σ1)
       /\ wrapInItem 0%nat σ1 = Ok (Wrap 0%nat, σ2)
       /\ σ2 0%nat = σ1 0%nat.
Proof.
  assert (Hd : Forall defined (Fixtures.illustrated 0%nat)) by (repeat constructor).
  assert (Hone : at_most_one_image (Fixtures.illustrated 0%nat))
    by (vm_compute; lia).
  split; [exact Hd|]. split; [exact Hone|].
  destruct (wrapInItem_twice 0%nat Fixtures.illustrated Hd Hone)
    as (σ1 & σ2 & H1 & H2 & Heq).
  exists σ1, σ2. split; [exact H1|]. split; [exact H2 | apply Heq].
Defined.

(** ** Categories and the normalizer *)

Lemma tag_record_defined (x : value) : tag_record x -> defined x.
Proof. intros (k & v & ->). reflexivity. Qed.

Lemma tag_record_image_no_category (x : value) :
  tag_record x -> is_image x = true -> has_category x = false.
Proof.
  intros (k & v & ->). unfold is_image, has_category, tag, get. cbn [lookup_field].
  destruct (String.eqb "image" k) eqn:Hk.
  - apply String.eqb_eq in Hk. subst k. reflexivity.
  - discriminate.
Qed.

Lemma filter_without_first_image (xs : list value) :
  Forall (fun x => is_image x = true -> has_category x = false) xs ->
  List.filter has_category (without_first_image xs) = List.filter has_category xs.
Proof.
  induction 1 as [|x xs Hx _ IH]; [reflexivity|]. cbn [without_first_image].
  destruct (is_image x) eqn:Hi; cbn [List.filter].
  - rewrite (Hx eq_refl). reflexivity.
  - rewrite IH. reflexivity.
Qed.

Lemma tag_records_without_first_image (xs : list value) :
  Forall tag_record xs -> Forall tag_record (without_first_image xs).
Proof.
  induction 1 as [|x xs Hx Hxs IH]; simpl; [constructor|].
  destruct (is_image x); [assumption | constructor; assumption].
Qed.

Lemma item_categories_without_first_image (xs : list value) :
  Forall tag_record xs ->
  item_categories (without_first_image xs) = item_categories xs.
Proof.
  intros Hrec. unfold item_categories. rewrite filter_without_first_image; [reflexivity|].
  eapply List.Forall_impl; [|exact Hrec].
  intros x Hx. apply tag_record_image_no_category. exact Hx.
Qed.

(** The normalizer does not disturb category elevation: for a FeedItem made
    of tag-records, the comma-join of its categories is the same after
    [wrapInItem] as before, so the derived category record is too. *)
Theorem wrapInItem_keeps_categories (entry : loc) (σ : heap) (w : wrapped)
    (σ' : heap) :
  wrapInItem entry σ = Ok (w, σ') ->
  Forall tag_record (σ entry) ->
  item_categories (σ' entry) = item_categories (σ entry)
  /\ category_tags (σ' entry) = category_tags (σ entry).
Proof.
  intros H Hrec. apply wrapInItem_Ok in H as [_ Hσ'].
  assert (Heq : item_categories (σ' entry) = item_categories (σ entry)).
  { rewrite Hσ', decide_True by reflexivity.
    apply item_categories_without_first_image. exact Hrec. }
  split; [exact Heq|]. unfold category_tags. rewrite Heq. reflexivity.
Qed.

Lemma wrapInItem_keeps_categories_witness :
  Forall tag_record (Fixtures.illustrated 0%nat)
  /\ exists σ',
       wrapInItem 0%nat Fixtures.illustrated = Ok (Wrap 0%nat, σ')
       /\ item_categories (σ' 0%nat) = "News".
Proof.
  assert (Hrec : Forall tag_record (Fixtures.illustrated 0%nat)).
  { repeat constructor; eexists _, _; reflexivity. }
  split; [exact Hrec|]. eexists. split; [reflexivity|].
  rewrite (proj1 (wrapInItem_keeps_categories 0%nat Fixtures.illustrated _ _
                    eq_refl Hrec)).
  reflexivity.
Defined.

(** The same for a whole render: on a feed of tag-records the call settles,
    and every array contributes the categories it had when the caller passed
    it, however often it occurs in the feed. *)
Theorem render_keeps_categories (xml : serializer) (p : payload) (now : clock) (σ : heap) :
  (forall l, In l (feed p) -> Forall tag_record (σ l)) ->
  exists σ' m calls,
    render xml p now σ = Settled σ' m calls
    /\ forall l, item_categories (σ' l) = item_categories (σ l).
Proof.
  intros Hrec.
  assert (Hwf : well_formed (feed p) σ).
  { intros l Hl. eapply List.Forall_impl; [|exact (Hrec l Hl)].
    exact tag_record_defined. }
  destruct (render_well_formed xml p now σ Hwf) as (σ' & m & _ & Hh & Hr).
  exists σ', m, (calls_after xml p m now σ' [] (List.map Wrap (feed p))).
  split; [exact Hr|]. intros l. rewrite Hh.
  destruct (count_occ Nat.eq_dec (feed p) l) as [|n] eqn:Hn; [reflexivity|].
  assert (Hl : In l (feed p)) by (apply (count_occ_In Nat.eq_dec); lia).
  specialize (Hrec l Hl). clear Hn. revert Hrec. generalize (σ l) as xs.
  induction n as [|n IH]; intros xs Hxs.
  - apply item_categories_without_first_image. exact Hxs.
  - rewrite Nat.iter_succ_r.
    rewrite IH by (apply tag_records_without_first_image; exact Hxs).
    apply item_categories_without_first_image. exact Hxs.
Qed.

Lemma render_keeps_categories_witness :
  (forall l, In l [0%nat; 0%nat; 1%nat] -> Forall tag_record (Fixtures.illustrated l))
  /\ exists σ' m calls,
       render Fixtures.xml {| feed := [0%nat; 0%nat; 1%nat]; meta := Fixtures.show; attr := None |}
              Fixtures.noon Fixtures.illustrated
       = Settled σ' m calls
       /\ item_categories (σ' 0%nat) = "News".
Proof.
  assert (Hrec : forall l, In l [0%nat; 0%nat; 1%nat] ->
                           Forall tag_record (Fixtures.illustrated l)).
  { intros l [<-|[<-|[<-|[]]]]; repeat constructor; eexists _, _; reflexivity. }
  split; [exact Hrec|].
  destruct (render_keeps_categories Fixtures.xml
              {| feed := [0%nat; 0%nat; 1%nat]; meta := Fixtures.show; attr := None |}
              Fixtures.noon Fixtures.illustrated Hrec)
    as (σ' & m & calls & Hr & Hcat).
  exists σ', m, calls. split; [exact Hr|]. rewrite Hcat. reflexivity.
Defined.

(** ** Category elevation, once more *)

Lemma has_category_object (x : value) : has_category x = true -> is_object x = true.
Proof.
  unfold has_category, get. destruct x; cbn; try reflexivity;
    rewrite ?andb_false_r; intros H; try discriminate H.
Qed.

(** [elevateCategory] reads object entries only: [null], [undefined],
    strings, numbers, booleans and arrays among the entries of an item are
    passed over without an exception, so an item contributes what its object
    entries contribute. *)
Theorem item_categories_objects_only (entries : list value) :
  item_categories entries = item_categories (List.filter is_object entries).
Proof.
  unfold item_categories. f_equal. f_equal.
  induction entries as [|x xs IH]; [reflexivity|]. cbn [List.filter].
  destruct (has_category x) eqn:Hc.
  - rewrite (has_category_object _ Hc). cbn [List.filter]. rewrite Hc, IH. reflexivity.
  - destruct (is_object x); cbn [List.filter]; rewrite ?Hc; exact IH.
Qed.

(** Every derived category record is [{ category: s }] with a non-empty
    string [s]; the records of a concatenated group are those of its parts,
    in order; and only the arrays of the group's own items are read. *)
Theorem elevateCategory_records :
  (forall σ group v,
      In v (elevateCategory σ group) ->
      exists s, v = tag "category" (VStr s) /\ s <> "")
  /\ (forall σ g1 g2,
        elevateCategory σ (g1 ++ g2) = elevateCategory σ g1 ++ elevateCategory σ g2)
  /\ (forall σ1 σ2 group,
        (forall w, In w group -> σ1 (item w) = σ2 (item w)) ->
        elevateCategory σ1 group = elevateCategory σ2 group).
Proof.
  split; [|split].
  - intros σ group v Hin. rewrite elevateCategory_per_item in Hin.
    apply in_flat_map in Hin as (w & _ & Hv). unfold category_tags in Hv.
    destruct (String.eqb (item_categories (σ (item w))) "") eqn:He; [destruct Hv|].
    destruct Hv as [<-|[]]. eexists. split; [reflexivity|].
    apply String.eqb_neq. exact He.
  - intros σ g1 g2. rewrite !elevateCategory_per_item. apply flat_map_app.
  - intros σ1 σ2 group Hsame. rewrite !elevateCategory_per_item.
    induction group as [|w group IH]; [reflexivity|]. cbn [flat_map].
    rewrite (Hsame w (or_introl eq_refl)), IH; [reflexivity|].
    intros w' Hw'. apply Hsame. right. exact Hw'.
Qed.

Lemma elevateCategory_records_witness :
  In (tag "category" (VStr "Tech"))
     (elevateCategory Fixtures.episodes [Wrap 0%nat; Wrap 1%nat])
  /\ exists s, tag "category" (VStr "Tech") = tag "category" (VStr s) /\ s <> "".
Proof.
  assert (Hin : In (tag "category" (VStr "Tech"))
                   (elevateCategory Fixtures.episodes [Wrap 0%nat; Wrap 1%nat]))
    by (right; left; reflexivity).
  split; [exact Hin|].
  exact (proj1 elevateCategory_records _ _ _ Hin).
Defined.

(** ** Cleaning the attributes *)

(** [cleanNullValues] only deletes: what it returns is contained in its
    argument, holds a property exactly when the argument holds it with a
    truthy value, and is left alone by a second cleaning. *)
Theorem cleanNullValues_only_deletes :
  (forall obj k v,
      cleanNullValues obj !! k = Some v <-> obj !! k = Some v /\ truthy v = true)
  /\ (forall obj, cleanNullValues obj ⊆ obj)
  /\ (forall obj, cleanNullValues (cleanNullValues obj) = cleanNullValues obj).
Proof.
  assert (Hlookup : forall obj k v,
    cleanNullValues obj !! k = Some v <-> obj !! k = Some v /\ truthy v = true).
  { intros obj k v. rewrite cleaned_lookup.
    destruct (obj !! k) as [x|]; [|split; [discriminate | intros [H _]; discriminate H]].
    destruct (truthy x) eqn:Hx; split.
    - intros [= <-]. auto.
    - intros [[= <-] _]. reflexivity.
    - discriminate.
    - intros [[= <-] Hv]. congruence. }
  split; [exact Hlookup|]. split.
  - intros obj. apply map_filter_subseteq.
  - intros obj. apply map_eq. intros k.
    apply option_eq. intros v. rewrite !Hlookup. tauto.
Qed.

(** ** render on any feed *)

Lemma normalize_any (feed : list loc) :
  forall σ,
    let r := Highland.map wrapInItem (Highland.of_array feed) σ in
    (exists ls,
        sublist ls feed
        /\ Highland.values_of r.1 = List.map Wrap ls
        /\ (length ls + length (Highland.errors_of r.1) = length feed)%nat)
    /\ (forall l, sublist (r.2 l) (σ l))
    /\ (forall l, ~ In l feed -> r.2 l = σ l)
    /\ (forall l, (length (σ l) <= length (r.2 l) + count_occ Nat.eq_dec feed l)%nat).
Proof.
  induction feed as [|l0 rest IH]; intros σ; cbn zeta.
  - cbn. split; [exists []; repeat split; constructor|].
    split; [reflexivity|]. split; [reflexivity|]. intros l. lia.
  - cbn [Highland.of_array List.map Highland.map]. fold (Highland.of_array rest).
    destruct (wrapInItem l0 σ) as [[w σ1]|e] eqn:Hw.
    + apply wrapInItem_Ok in Hw as [-> Hσ1].
      specialize (IH σ1). cbn zeta in IH.
      destruct (Highland.map wrapInItem (Highland.of_array rest) σ1) as [out σ'].
      cbn [fst snd] in *.
      destruct IH as ((ls & Hsub & Hvals & Hlen) & Hstore & Hout & Hcount).
      split; [|split; [|split]].
      * exists (l0 :: ls). split; [apply sublist_skip; exact Hsub|].
        unfold Highland.values_of, Highland.errors_of in *.
        cbn. rewrite Hvals. split; [reflexivity | lia].
      * intros l. etransitivity; [apply Hstore|]. rewrite Hσ1.
        case_decide; [subst; apply without_first_image_sublist | reflexivity].
      * intros l Hl. rewrite Hout by (intros H; apply Hl; right; exact H).
        rewrite Hσ1, decide_False; [reflexivity|].
        intros ->. apply Hl. left. reflexivity.
      * intros l. specialize (Hcount l). rewrite Hσ1 in Hcount.
        destruct (Nat.eq_dec l0 l) as [->|Hne].
        -- rewrite count_occ_cons_eq by reflexivity.
           rewrite decide_True in Hcount by reflexivity.
           rewrite without_first_image_length in Hcount.
           revert Hcount. unfold loc. destruct (existsb is_image (σ l)); lia.
        -- rewrite count_occ_cons_neq by exact Hne.
           rewrite decide_False in Hcount by exact Hne. exact Hcount.
    + specialize (IH σ). cbn zeta in IH.
      destruct (Highland.map wrapInItem (Highland.of_array rest) σ) as [out σ'].
      cbn [fst snd] in *.
      destruct IH as ((ls & Hsub & Hvals & Hlen) & Hstore & Hout & Hcount).
      split; [|split; [|split]].
      * exists ls. split; [apply sublist_cons; exact Hsub|].
        unfold Highland.values_of, Highland.errors_of in *.
        cbn. split; [exact Hvals | lia].
      * exact Hstore.
      * intros l Hl. apply Hout. intros H. apply Hl. right. exact H.
      * intros l. specialize (Hcount l).
        destruct (Nat.eq_dec l0 l) as [->|Hne].
        -- rewrite count_occ_cons_eq by reflexivity. unfold loc in *. lia.
        -- rewrite count_occ_cons_neq by exact Hne. exact Hcount.
Qed.

Lemma render_Settled (xml : serializer) (p : payload) (now : clock) (σ σ' : heap) (m : Meta)
    (calls : list call) :
  render xml p now σ = Settled σ' m calls ->
  hoistImage (feed p) (meta p) σ = Ok m
  /\ σ' = (Highland.map wrapInItem (Highland.of_array (feed p)) σ).2
  /\ calls =
     calls_after xml p m now σ'
       (Highland.errors_of (Highland.map wrapInItem (Highland.of_array (feed p)) σ).1)
       (Highland.values_of (Highland.map wrapInItem (Highland.of_array (feed p)) σ).1).
Proof.
  rewrite render_stages.
  destruct (hoistImage (feed p) (meta p) σ) as [m0|e]; [|discriminate].
  cbn zeta. intros [= <- <- <-]. auto.
Qed.

(** Whatever the entries are, a render that settles has only removed entries
    from the caller's arrays: every array is afterwards a subsequence of what
    it was, an array outside the feed is untouched, and an array has lost at
    most one entry per occurrence in the feed. *)
Theorem render_only_removes_entries (xml : serializer) (p : payload) (now : clock) (σ σ' : heap)
    (m : Meta) (calls : list call) :
  render xml p now σ = Settled σ' m calls ->
  (forall l, sublist (σ' l) (σ l))
  /\ (forall l, ~ In l (feed p) -> σ' l = σ l)
  /\ (forall l,
        (length (σ l) <= length (σ' l) + count_occ Nat.eq_dec (feed p) l)%nat).
Proof.
  intros H. apply render_Settled in H as (_ & -> & _).
  destruct (normalize_any (feed p) σ) as (_ & Hsub & Hout & Hcount).
  auto.
Qed.

Lemma render_only_removes_entries_witness :
  exists σ' m calls,
    render Fixtures.xml {| feed := [0%nat; 1%nat]; meta := Fixtures.show; attr := None |}
           Fixtures.noon Fixtures.broken
    = Settled σ' m calls
    /\ sublist (σ' 0%nat) (Fixtures.broken 0%nat)
    /\ σ' 2%nat = Fixtures.broken 2%nat.
Proof.
  eexists _, _, _. split; [rewrite render_stages; reflexivity|].
  destruct (render_only_removes_entries Fixtures.xml
              {| feed := [0%nat; 1%nat]; meta := Fixtures.show; attr := None |}
              Fixtures.noon Fixtures.broken _ _ _
              ltac:(rewrite render_stages; reflexivity))
    as (Hsub & Hout & _).
  split; [apply Hsub|]. apply Hout. cbn. intros [H|[H|[]]]; discriminate H.
Defined.

(** [render] throws to its caller exactly when, in the first FeedItem, a
    [null] or [undefined] entry stands before every entry with a truthy
    [image]; the error is the [TypeError] of reading [image] from that entry.
    In particular an empty feed never throws, and no later FeedItem can make
    the call throw. *)
Theorem render_throws (xml : serializer) (p : payload) (now : clock) (σ : heap) (e : Error) :
  render xml p now σ = Thrown e <->
  exists first rest pre x post,
    feed p = first :: rest
    /\ σ first = pre ++ x :: post
    /\ Forall (fun y => defined y /\ is_image y = false) pre
    /\ nullish x = true
    /\ e = TypeError "image" x.
Proof.
  rewrite render_stages. split.
  - destruct (hoistImage (feed p) (meta p) σ) as [m|e0] eqn:Hh; [discriminate|].
    intros [= <-]. destruct (feed p) as [|first rest]; [discriminate Hh|].
    cbn [hoistImage] in Hh.
    destruct (findIndexOfElementInArray (σ first) "image") as [j|e1] eqn:Hf.
    + cbn [bind] in Hh.
      destruct (truthy (get_image_url (index (σ first) j))); discriminate Hh.
    + cbn [bind] in Hh. injection Hh as <-.
      apply findIndex_from_Throw in Hf as (pre & x & post & Hs & Hpre & Hx & ->).
      exists first, rest, pre, x, post. auto.
  - intros (first & rest & pre & x & post & Hfeed & Hs & Hpre & Hx & ->).
    rewrite Hfeed. cbn [hoistImage]. unfold findIndexOfElementInArray.
    rewrite Hs, (findIndex_from_nullish "image" pre x post Hpre Hx). reflexivity.
Qed.

Lemma render_throws_witness :
  render Fixtures.xml {| feed := [1%nat; 0%nat]; meta := Fixtures.show; attr := None |}
         Fixtures.noon Fixtures.broken
  = Thrown (TypeError "image" VNull).
Proof.
  apply (proj2 (render_throws _ _ _ _ _)).
  exists 1%nat, [0%nat], [], VNull, []. repeat split; constructor.
Defined.

Lemma item_elements_resolve (σ : heap) (vs : list value) (group : list wrapped) :
  omap (fun el => match el with
                  | ItemElement entries => Some entries
                  | Plain _ => None
                  end)
       (List.map (resolve_node σ) (List.map NTag vs ++ List.map NItem group))
  = List.map (fun w => σ (item w)) group.
Proof.
  rewrite map_app, omap_app.
  replace (omap _ (List.map (resolve_node σ) (List.map NTag vs))) with (@nil (list value))
    by (induction vs as [|v vs IH]; [reflexivity | exact IH]).
  cbn [app]. induction group as [|w group IH]; [reflexivity|].
  cbn. f_equal. exact IH.
Qed.

(** Every FeedItem is either emitted or reported: when a body is written,
    its item elements are the arrays of a subsequence of the feed, in feed
    order and as the normalizer left them, the calls before the content type
    are the Error Responder's for the items left out, and emitted and
    reported items together are as many as the feed has. *)
Theorem render_emits_or_reports (xml : serializer) (p : payload) (now : clock) (σ σ' : heap)
    (m : Meta) (calls : list call) (body : document) :
  render xml p now σ = Settled σ' m calls ->
  In (res_send body) calls ->
  exists ls errs,
    sublist ls (feed p)
    /\ item_elements body = List.map σ' ls
    /\ calls = flat_map sendError errs ++ [ res_type "text/rss+xml"; res_send body ]
    /\ (length ls + length errs = length (feed p))%nat.
Proof.
  intros H Hin. apply render_Settled in H as (_ & Hσ' & ->).
  destruct (normalize_any (feed p) σ) as ((ls & Hsub & Hvals & Hlen) & _).
  cbn zeta in *. rewrite Hvals in *.
  set (errs := Highland.errors_of
                 (Highland.map wrapInItem (Highland.of_array (feed p)) σ).1) in *.
  apply calls_after_send in Hin as (data & Hdata & -> & _ & Hcalls).
  exists ls, errs. split; [exact Hsub|]. split; [|split; [exact Hcalls | exact Hlen]].
  apply feedMetaTags_Ok in Hdata as [_ ->].
  unfold item_elements. cbn [resolve elements channel wrapInTopLevel].
  rewrite item_elements_resolve, map_map. reflexivity.
Qed.

Lemma render_emits_or_reports_witness :
  exists σ' m calls body,
    render Fixtures.xml {| feed := [0%nat; 1%nat]; meta := Fixtures.show; attr := None |}
           Fixtures.noon Fixtures.broken
    = Settled σ' m calls
    /\ In (res_send body) calls
    /\ exists (ls : list loc) (errs : list Error),
         sublist ls [0%nat; 1%nat]
         /\ item_elements body = List.map σ' ls
         /\ (length ls + length errs = 2)%nat.
Proof.
  eexists _, _, _, _. split; [rewrite render_stages; reflexivity|].
  split; [do 4 right; left; reflexivity|].
  destruct (render_emits_or_reports Fixtures.xml
              {| feed := [0%nat; 1%nat]; meta := Fixtures.show; attr := None |}
              Fixtures.noon Fixtures.broken _ _ _ _
              ltac:(rewrite render_stages; reflexivity)
              ltac:(do 4 right; left; reflexivity))
    as (ls & errs & Hsub & Hitems & _ & Hlen).
  exists ls, errs. split; [exact Hsub|]. split; [exact Hitems | exact Hlen].
Defined.

Lemma in_sendError (es : list Error) (c : call) :
  In c (flat_map sendError es) <->
  exists e, In e es
            /\ (c = res_status 500
                \/ c = res_json 500 (message e)
                \/ c = log_call "error" (message e) e).
Proof.
  rewrite in_flat_map. split.
  - intros (e & He & [<-|[<-|[<-|[]]]]); exists e; auto.
  - intros (e & He & [-> | [-> | ->]]); exists e; (split; [exact He|]); cbn; auto.
Qed.




(** What a settled render writes is always well-formed: the only status is
    500, the only content type is [text/rss+xml], every JSON error body has
    status 500 and the message of an error that is also logged, and every
    log entry is at "error" level, carries its error's own message and
    stands beside a JSON body with that message. *)
Theorem render_reports_are_logged (xml : serializer) (p : payload) (now : clock) (σ σ' : heap)
    (m : Meta) (calls : list call) :
  render xml p now σ = Settled σ' m calls ->
  (forall code, In (res_status code) calls -> code = 500)
  /\ (forall mime, In (res_type mime) calls -> mime = "text/rss+xml")
  /\ (forall status msg,
        In (res_json status msg) calls ->
        status = 500
        /\ exists e, msg = message e /\ In (log_call "error" msg e) calls)
  /\ (forall level msg e,
        In (log_call level msg e) calls ->
        level = "error" /\ msg = message e /\ In (res_json 500 msg) calls).
Proof.
  intros H. apply render_Settled in H as (_ & _ & ->). unfold calls_after.
  set (errs := Highland.errors_of _). set (group := Highland.values_of _).
  assert (Hshape : exists es1 mid es2,
    match feedMetaTags m now σ' group with
    | Ok data =>
        flat_map sendError errs
        ++ success_calls xml (resolve σ' (wrapInTopLevel data (attr p)))
    | Throw e => flat_map sendError (errs ++ [e; EmptyPipelineResultError])
    end = flat_map sendError es1 ++ mid ++ flat_map sendError es2
    /\ (forall c, In c mid ->
                  c = res_type "text/rss+xml" \/ exists body, c = res_send body)).
  { destruct (feedMetaTags m now σ' group) as [data|e].
    - unfold success_calls.
      destruct (xml (resolve σ' (wrapInTopLevel data (attr p)))) as [text|e].
      + exists errs. eexists. exists []. cbn [flat_map].
        split; [rewrite List.app_nil_r; reflexivity|].
        intros c [<-|[<-|[]]]; eauto.
      + exists errs, [res_type "text/rss+xml"], [e]. cbn [flat_map app].
        split; [rewrite List.app_nil_r; reflexivity|].
        intros c [<-|[]]. left. reflexivity.
    - exists (errs ++ [e; EmptyPipelineResultError]), [], [].
      split; [rewrite !List.app_nil_r; reflexivity | intros c []]. }
  destruct Hshape as (es1 & mid & es2 & -> & Hmid).
  set (calls := flat_map sendError es1 ++ mid ++ flat_map sendError es2).
  assert (Hin : forall c, In c calls ->
                  (exists e, In e (es1 ++ es2)
                             /\ (c = res_status 500
                                 \/ c = res_json 500 (message e)
                                 \/ c = log_call "error" (message e) e))
                  \/ c = res_type "text/rss+xml" \/ exists body, c = res_send body).
  { intros c Hc. unfold calls in Hc.
    apply in_app_or in Hc as [Hc|Hc]; [|apply in_app_or in Hc as [Hc|Hc]].
    - left. apply in_sendError in Hc as (e & He & Hc).
      exists e. split; [apply in_or_app; left; exact He | exact Hc].
    - right. apply Hmid. exact Hc.
    - left. apply in_sendError in Hc as (e & He & Hc).
      exists e. split; [apply in_or_app; right; exact He | exact Hc]. }
  assert (Hback : forall e c, In e (es1 ++ es2) ->
                    c = res_json 500 (message e) \/ c = log_call "error" (message e) e ->
                    In c calls).
  { intros e c He Hc. unfold calls. apply in_app_or in He as [He|He].
    - apply in_or_app. left. apply in_sendError.
      exists e. split; [exact He|]. tauto.
    - apply in_or_app. right. apply in_or_app. right. apply in_sendError.
      exists e. split; [exact He|]. tauto. }
  split; [|split; [|split]].
  - intros code Hc. apply Hin in Hc as [(e & _ & [Hc|[Hc|Hc]])|[Hc|(body & Hc)]];
      try discriminate Hc. injection Hc as ->. reflexivity.
  - intros mime Hc. apply Hin in Hc as [(e & _ & [Hc|[Hc|Hc]])|[Hc|(body & Hc)]];
      try discriminate Hc. injection Hc as ->. reflexivity.
  - intros status msg Hc.
    apply Hin in Hc as [(e & He & [Hc|[Hc|Hc]])|[Hc|(body & Hc)]];
      try discriminate Hc. injection Hc as -> ->.
    split; [reflexivity|]. exists e. split; [reflexivity|]. eapply Hback; eauto.
  - intros level msg e0 Hc.
    apply Hin in Hc as [(e & He & [Hc|[Hc|Hc]])|[Hc|(body & Hc)]];
      try discriminate Hc. injection Hc as -> -> ->.
    split; [reflexivity|]. split; [reflexivity|]. eapply Hback; eauto.
Qed.

Lemma render_reports_are_logged_witness :
  exists σ' m calls,
    render Fixtures.xml {| feed := [0%nat; 1%nat]; meta := Fixtures.untitled; attr := None |}
           Fixtures.noon Fixtures.broken
    = Settled σ' m calls
    /\ In (res_json 500 "Cannot read property 'image' of null") calls
    /\ In (log_call "error" "Cannot read property 'image' of null"
                    (TypeError "image" VNull)) calls.
Proof.
  eexists _, _, _. split; [rewrite render_stages; reflexivity|].
  assert (Hlog : In (log_call "error" "Cannot read property 'image' of null"
                              (TypeError "image" VNull))
                    (calls_after Fixtures.xml
                       {| feed := [0%nat; 1%nat]; meta := Fixtures.untitled;
                          attr := None |}
                       Fixtures.untitled Fixtures.noon
                       (Highland.map wrapInItem (Highland.of_array [0%nat; 1%nat])
                                     Fixtures.broken).2
                       [TypeError "image" VNull] [Wrap 0%nat]))
    by (right; right; left; reflexivity).
  split; [|exact Hlog].
  apply (proj2 (proj2 (proj2 (render_reports_are_logged Fixtures.xml
           {| feed := [0%nat; 1%nat]; meta := Fixtures.untitled; attr := None |}
           Fixtures.noon Fixtures.broken _ _ _
           ltac:(rewrite render_stages; reflexivity))))
         "error" "Cannot read property 'image' of null" (TypeError "image" VNull)).
  exact Hlog.
Defined.

(** An empty feed touches nothing: the caller's store and Meta come back as
    they were.  When Meta is valid the document handed to the serializer is
    the channel of the site metadata alone (no item, no derived category):
    the content type is written, then the body when the serializer returns
    and the Error Responder's calls for its exception otherwise.  When Meta
    is not valid the two error reports are written. *)
Theorem render_empty_feed (xml : serializer) (p : payload) (now : clock)
    (σ : heap) :
  feed p = [] ->
  let body :=
    {| root_attr := _attr (wrapInTopLevel [] (attr p));
       elements :=
         List.map Plain
           (site_tags (meta p) now ++ opt_tags (opt (meta p))
            ++ image_tags (meta p)) |} in
  render xml p now σ =
  Settled σ (meta p)
    (if truthy (title (meta p)) && truthy (description (meta p))
        && truthy (link (meta p))
     then res_type "text/rss+xml"
          :: match xml body with
             | Ok _ => [ res_send body ]
             | Throw e => sendError e
             end
     else sendError MissingRequiredFieldError ++ sendError EmptyPipelineResultError).
Proof.
  intros Hfeed body. rewrite render_stages, Hfeed.
  cbn [hoistImage Highland.of_array List.map Highland.map fst snd
       Highland.errors_of Highland.values_of omap list_omap].
  unfold calls_after.
  destruct (truthy (title (meta p))) eqn:Ht;
    [destruct (truthy (description (meta p))) eqn:Hd;
     [destruct (truthy (link (meta p))) eqn:Hl|]|]; cbn [andb].
  - rewrite feedMetaTags_valid by assumption. cbn [flat_map app].
    assert (Hbody : resolve σ
              (wrapInTopLevel
                 (List.map NTag
                    (site_tags (meta p) now ++ opt_tags (opt (meta p))
                     ++ image_tags (meta p)
                     ++ (if elevates (meta p) then elevateCategory σ [] else []))
                  ++ List.map NItem []) (attr p)) = body).
    { unfold resolve, body. cbn [wrapInTopLevel _attr channel]. f_equal.
      replace (if elevates (meta p) then elevateCategory σ [] else [])
        with (@nil value) by (destruct (elevates (meta p)); reflexivity).
      cbn [List.map]. rewrite !List.app_nil_r, map_map. reflexivity. }
    rewrite Hbody. reflexivity.
  - rewrite feedMetaTags_missing by auto. reflexivity.
  - rewrite feedMetaTags_missing by auto. reflexivity.
  - rewrite feedMetaTags_missing by auto. reflexivity.
Qed.

Lemma render_empty_feed_witness :
  exists body,
    render Fixtures.xml {| feed := []; meta := Fixtures.branded; attr := None |}
           Fixtures.noon Fixtures.illustrated
    = Settled Fixtures.illustrated Fixtures.branded
        [ res_type "text/rss+xml"; res_send body ]
    /\ length (elements body) = 8%nat.
Proof.
  eexists. split.
  - rewrite (render_empty_feed Fixtures.xml
               {| feed := []; meta := Fixtures.branded; attr := None |}
               Fixtures.noon Fixtures.illustrated eq_refl).
    reflexivity.
  - reflexivity.
Defined.

(** An image entry without a usable [url] is lost: when the first entry
    with a truthy [image] of the first FeedItem is a tag-record whose image
    has no truthy [url] (an image given as a plain string, say), the image
    step leaves Meta as it is, and the normalizer removes the entry from the
    item all the same. *)
Theorem image_without_url_is_dropped (first : loc) (rest : list loc) (m : Meta)
    (σ : heap) (pre : list value) (v : value) (post : list value) :
  σ first = pre ++ tag "image" v :: post ->
  Forall (fun y => defined y /\ is_image y = false) pre ->
  truthy v = true ->
  truthy (get v "url") = false ->
  hoistImage (first :: rest) m σ = Ok m
  /\ exists σ1,
       wrapInItem first σ = Ok (Wrap first, σ1)
       /\ σ1 first = pre ++ post.
Proof.
  intros Hs Hpre Hv Hurl.
  assert (Hfound : findIndexOfElementInArray (σ first) "image"
                   = Ok (0 + Z.of_nat (length pre))).
  { unfold findIndexOfElementInArray. rewrite Hs.
    apply findIndex_from_found; [exact Hpre | reflexivity | exact Hv]. }
  split.
  - cbn [hoistImage]. rewrite Hfound. cbn [bind]. rewrite Hs, index_middle.
    assert (Hget : get_image_url (tag "image" v) = get v "url").
    { unfold get_image_url, tag. cbn.
      destruct v; try reflexivity; discriminate Hv. }
    rewrite Hget, Hurl. reflexivity.
  - unfold wrapInItem. rewrite Hfound. cbn [bind].
    replace (negb (length (σ first) =? 0)%nat) with true
      by (rewrite Hs, length_app; cbn [length]; symmetry;
          apply negb_true_iff, Nat.eqb_neq; lia).
    replace (negb (0 + Z.of_nat (length pre) =? -1)) with true
      by (symmetry; apply negb_true_iff, Z.eqb_neq; lia).
    eexists. split; [reflexivity|].
    unfold insert, fn_insert. rewrite decide_True by reflexivity.
    rewrite Hs, Z.add_0_l. apply splice1_middle.
Qed.

Lemma image_without_url_is_dropped_witness :
  hoistImage [0%nat] Fixtures.show Fixtures.linked = Ok Fixtures.show
  /\ exists σ1,
       wrapInItem 0%nat Fixtures.linked = Ok (Wrap 0%nat, σ1)
       /\ σ1 0%nat = [ tag "title" (VStr "Ep1") ].
Proof.
  apply (image_without_url_is_dropped 0%nat [] Fixtures.show Fixtures.linked
           [] (VStr "http://i") [tag "title" (VStr "Ep1")]).
  - reflexivity.
  - constructor.
  - reflexivity.
  - reflexivity.
Defined.

(** ** The first revision *)

Lemma splice_last (xs : list value) :
  FirstRevision.splice xs (-1) = removelast xs.
Proof.
  unfold FirstRevision.splice, splice1. cbn [Z.ltb Z.compare].
  destruct xs as [|x xs]; [reflexivity|].
  replace (Z.to_nat (Z.max 0 (Z.of_nat (length (x :: xs)) + -1)))
    with (length xs) by (cbn [length]; lia).
  replace (S (length xs)) with (length (x :: xs)) by reflexivity.
  rewrite drop_all, List.app_nil_r.
  rewrite removelast_firstn_len. reflexivity.
Qed.

(** In the first revision [wrapInItem] takes exactly one entry out of every
    non-empty array it can read: the first entry with a truthy [image] when
    there is one, and the last entry of the array when there is none. *)
Theorem first_revision_always_removes (entry : loc) (σ : heap) :
  Forall defined (σ entry) ->
  σ entry <> [] ->
  exists σ',
    FirstRevision.wrapInItem entry σ = Ok (Wrap entry, σ')
    /\ S (length (σ' entry)) = length (σ entry)
    /\ (no_image (σ entry) -> σ' entry = removelast (σ entry))
    /\ (~ no_image (σ entry) -> σ' entry = without_first_image (σ entry))
    /\ (forall l, l <> entry -> σ' l = σ l).
Proof.
  intros Hd Hne. unfold FirstRevision.wrapInItem, findIndexOfElementInArray.
  replace (negb (length (σ entry) =? 0)%nat) with true
    by (symmetry; apply negb_true_iff, Nat.eqb_neq;
        destruct (σ entry); [congruence | cbn; lia]).
  destruct (findIndex_from_defined "image" _ Hd 0) as [j Hj]. rewrite Hj. cbn [bind].
  eexists. split; [reflexivity|].
  assert (Hother : forall xs l, l <> entry -> <[entry := xs]> σ l = σ l).
  { intros xs l Hl. unfold insert, fn_insert. rewrite decide_False by congruence.
    reflexivity. }
  unfold insert at 1 2 3, fn_insert. rewrite !decide_True by reflexivity.
  apply findIndex_from_Ok in Hj
    as [[-> Hall] | (pre & x & post & Hs & Hpre & Hx & Htx & ->)].
  - assert (Hno : no_image (σ entry))
      by (eapply List.Forall_impl; [|exact Hall]; intros y [_ Hy]; exact Hy).
    rewrite splice_last. split; [|split; [|split]].
    + destruct (σ entry) as [|x xs] eqn:Hxs; [congruence|].
      rewrite <- Hxs. rewrite removelast_firstn_len, length_take. rewrite Hxs. cbn. lia.
    + reflexivity.
    + intros Hn. destruct (Hn Hno).
    + apply Hother.
  - assert (Hpre' : Forall (fun y => is_image y = false) pre)
      by (eapply List.Forall_impl; [|exact Hpre]; intros y [_ Hy]; exact Hy).
    unfold FirstRevision.splice.
    replace (0 + Z.of_nat (length pre) <? 0) with false
      by (symmetry; apply Z.ltb_ge; lia).
    rewrite Hs, Z.add_0_l, splice1_middle.
    split; [|split; [|split]].
    + rewrite !length_app. cbn. lia.
    + intros Hno. apply Forall_app in Hno as [_ Hno].
      inversion Hno as [|? ? Hxno _]. unfold is_image in Hxno. congruence.
    + intros _. rewrite without_first_image_middle; auto.
    + apply Hother.
Qed.

Lemma first_revision_always_removes_witness :
  Forall defined (Fixtures.episodes 0%nat)
  /\ Fixtures.episodes 0%nat <> []
  /\ exists σ',
       FirstRevision.wrapInItem 0%nat Fixtures.episodes = Ok (Wrap 0%nat, σ')
       /\ σ' 0%nat = [ tag "title" (VStr "Ep1") ].
Proof.
  assert (Hd : Forall defined (Fixtures.episodes 0%nat)) by (repeat constructor).
  assert (Hne : Fixtures.episodes 0%nat <> []) by discriminate.
  split; [exact Hd|]. split; [exact Hne|].
  destruct (first_revision_always_removes 0%nat Fixtures.episodes Hd Hne)
    as (σ' & Hw & _ & Hlast & _).
  exists σ'. split; [exact Hw|]. rewrite Hlast; [reflexivity|].
  repeat constructor.
Defined.

(** The two revisions of [wrapInItem] agree on an empty array and on an
    array in which the scan finds an entry with a truthy [image]. *)
Theorem first_revision_wrapInItem_agrees (entry : loc) (σ : heap) :
  σ entry = []
  \/ (exists pre x post,
        σ entry = pre ++ x :: post
        /\ Forall (fun y => defined y /\ is_image y = false) pre
        /\ defined x /\ is_image x = true) ->
  FirstRevision.wrapInItem entry σ = wrapInItem entry σ.
Proof.
  unfold FirstRevision.wrapInItem, wrapInItem.
  intros [Hnil | (pre & x & post & Hs & Hpre & Hx & Htx)].
  - rewrite Hnil. reflexivity.
  - destruct (negb (length (σ entry) =? 0)%nat); [|reflexivity].
    assert (Hf : findIndexOfElementInArray (σ entry) "image"
                 = Ok (0 + Z.of_nat (length pre))).
    { unfold findIndexOfElementInArray. rewrite Hs.
      apply findIndex_from_found; assumption. }
    rewrite Hf. cbn [bind].
    unfold FirstRevision.splice.
    replace (0 + Z.of_nat (length pre) <? 0) with false
      by (symmetry; apply Z.ltb_ge; lia).
    replace (negb (0 + Z.of_nat (length pre) =? -1)) with true
      by (symmetry; apply negb_true_iff, Z.eqb_neq; lia).
    reflexivity.
Qed.

Lemma first_revision_wrapInItem_agrees_witness :
  FirstRevision.wrapInItem 0%nat Fixtures.illustrated
  = wrapInItem 0%nat Fixtures.illustrated.
Proof.
  apply first_revision_wrapInItem_agrees. right.
  exists [tag "title" (VStr "Ep1")], (tag "image" (tag "url" (VStr "http://i"))),
    [tag "category" (VStr "News")].
  repeat split; repeat constructor.
Defined.

(** In the first revision a feed whose first FeedItem has no entry with a
    truthy [image] cannot be rendered: [render] throws the [TypeError] of
    reading [image] from [undefined] before the pipeline is built. *)
Theorem first_revision_needs_an_image (xml : serializer) (p : payload) (now : clock) (σ : heap)
    (first : loc) (rest : list loc) :
  feed p = first :: rest ->
  Forall (fun y => defined y /\ is_image y = false) (σ first) ->
  FirstRevision.render xml p now σ = Thrown (TypeError "image" VUndef).
Proof.
  intros Hfeed Hall. unfold FirstRevision.render. rewrite Hfeed.
  cbn [FirstRevision.hoistImage]. unfold findIndexOfElementInArray.
  rewrite (findIndex_from_absent "image" _ Hall). reflexivity.
Qed.

Lemma first_revision_needs_an_image_witness :
  FirstRevision.render Fixtures.xml
    {| feed := [0%nat; 1%nat]; meta := Fixtures.show; attr := None |}
    Fixtures.noon Fixtures.episodes
  = Thrown (TypeError "image" VUndef).
Proof.
  apply (first_revision_needs_an_image _ _ _ _ 0%nat [1%nat]).
  - reflexivity.
  - repeat constructor.
Defined.

(** The first revision's metadata assembler and the current one build the
    same channel whenever [docs] and [generator] are each absent or truthy
    and category elevation is on; they part only on a falsy [docs] or
    [generator] that is not [undefined], and on the elevation switch. *)
Theorem first_revision_feedMetaTags_agrees (m : Meta) (now : clock) (σ : heap)
    (group : list wrapped) :
  docs m = VUndef \/ truthy (docs m) = true ->
  generator m = VUndef \/ truthy (generator m) = true ->
  elevates m = true ->
  FirstRevision.feedMetaTags m now σ group = feedMetaTags m now σ group.
Proof.
  intros Hdocs Hgen Hel. unfold FirstRevision.feedMetaTags, feedMetaTags.
  assert (Ed : or_else (docs m) (VStr "http://blogs.law.harvard.edu/tech/rss")
               = or_default (docs m) (VStr docsUrl)).
  { unfold or_else, or_default. destruct Hdocs as [->|Ht]; [reflexivity|].
    rewrite Ht. destruct (docs m); try reflexivity. discriminate Ht. }
  assert (Eg : or_else (generator m) (VStr "Feed delivered by Clay")
               = or_default (generator m) (VStr generatorMessage)).
  { unfold or_else, or_default. destruct Hgen as [->|Ht]; [reflexivity|].
    rewrite Ht. destruct (generator m); try reflexivity. discriminate Ht. }
  assert (Ee : truthy (or_default (elevateChannelCategories m) (VBool true)) = true).
  { unfold elevates in Hel. unfold or_default.
    destruct (elevateChannelCategories m); try exact Hel; reflexivity. }
  rewrite Ed, Eg. cbn zeta. rewrite Ee. reflexivity.
Qed.

Lemma first_revision_feedMetaTags_agrees_witness :
  FirstRevision.feedMetaTags Fixtures.branded Fixtures.noon Fixtures.episodes
                             [Wrap 0%nat; Wrap 1%nat]
  = feedMetaTags Fixtures.branded Fixtures.noon Fixtures.episodes
                 [Wrap 0%nat; Wrap 1%nat].
Proof.
  apply first_revision_feedMetaTags_agrees.
  - left. reflexivity.
  - left. reflexivity.
  - reflexivity.
Defined.

(** ** The podcast revision *)

Lemma podcast_wrap_all (feed : list loc) (σ : heap) :
  Highland.map PodcastRevision.wrapInItem (Highland.of_array feed) σ
  = (List.map Highland.Val (List.map Wrap feed), σ).
Proof.
  induction feed as [|l rest IH]; [reflexivity|].
  cbn [Highland.of_array List.map Highland.map PodcastRevision.wrapInItem].
  fold (Highland.of_array rest). rewrite IH. reflexivity.
Qed.

Lemma podcast_feedMetaTags_valid (m : Meta) (now : clock) (σ : heap)
    (group : list wrapped) :
  truthy (title m) = true ->
  truthy (description m) = true ->
  truthy (link m) = true ->
  PodcastRevision.feedMetaTags m now σ group
  = Ok (List.map NTag
          (first_site_tags m now ++ itunes_tags m ++ opt_tags (opt m)
           ++ elevateCategory σ group)
        ++ List.map NItem group).
Proof.
  intros Ht Hd Hl. unfold PodcastRevision.feedMetaTags.
  rewrite Ht, Hd, Hl. cbn [negb orb]. f_equal.
  unfold first_site_tags, itunes_tags, opt_tags, or_else, concat_value,
    PodcastRevision.contactInfo.
  destruct (truthy (opt m)) eqn:Ho; [destruct (opt m); try discriminate Ho|];
    rewrite ?map_app, <- ?app_assoc; reflexivity.
Qed.

Lemma first_feedMetaTags_valid (m : Meta) (now : clock) (σ : heap)
    (group : list wrapped) :
  truthy (title m) = true ->
  truthy (description m) = true ->
  truthy (link m) = true ->
  FirstRevision.feedMetaTags m now σ group
  = Ok (List.map NTag
          (first_site_tags m now ++ opt_tags (opt m) ++ image_tags m
           ++ elevateCategory σ group)
        ++ List.map NItem group).
Proof.
  intros Ht Hd Hl. unfold FirstRevision.feedMetaTags.
  rewrite Ht, Hd, Hl. cbn [negb orb]. f_equal.
  unfold first_site_tags, opt_tags, image_tags, or_else, concat_value, formatImageTag.
  destruct (truthy (opt m)) eqn:Ho; destruct (truthy (image m)) eqn:Hi;
    [destruct (opt m); try discriminate Ho | destruct (opt m); try discriminate Ho | |];
    rewrite ?map_app, <- ?app_assoc; reflexivity.
Qed.

Lemma old_feedMetaTags_missing (m : Meta) (now : clock) (σ : heap)
    (group : list wrapped) :
  truthy (title m) && truthy (description m) && truthy (link m) = false ->
  PodcastRevision.feedMetaTags m now σ group = Throw MissingRequiredFieldError
  /\ FirstRevision.feedMetaTags m now σ group = Throw MissingRequiredFieldError.
Proof.
  intros H. unfold PodcastRevision.feedMetaTags, FirstRevision.feedMetaTags.
  destruct (truthy (title m)), (truthy (description m)), (truthy (link m));
    try discriminate H; split; reflexivity.
Qed.

(** The podcast revision builds a document for any feed and touches
    nothing: the call always settles with the caller's store and Meta as
    they were.  With a valid Meta the content type is written and a document
    is handed to the serializer, its items being the feed's arrays entry for
    entry (image entries and unreadable entries included) and its root
    carrying [version] alone; the body is written when the serializer
    returns, and the Error Responder's calls for its exception otherwise.
    With an invalid Meta exactly the two error reports are written, the
    second with this revision's "No data send" text. *)
Theorem podcast_revision_render (xml : serializer) (p : payload) (now : clock)
    (σ : heap) :
  exists calls,
    PodcastRevision.render xml p now σ = Settled σ (meta p) calls
    /\ (truthy (title (meta p)) && truthy (description (meta p))
        && truthy (link (meta p)) = true ->
        exists body,
          calls = res_type "text/rss+xml"
                  :: match xml body with
                     | Ok _ => [ res_send body ]
                     | Throw e => FirstRevision.sendError e
                     end
          /\ item_elements body = List.map σ (feed p)
          /\ root_attr body = {[ "version" := VStr "2.0" ]})
    /\ (truthy (title (meta p)) && truthy (description (meta p))
        && truthy (link (meta p)) = false ->
        calls =
        [ res_status 500;
          res_json 500
            "A `title`, `description` and `link` property are all required in the `meta` object for the RSS renderer";
          log_call "error"
            "A `title`, `description` and `link` property are all required in the `meta` object for the RSS renderer"
            MissingRequiredFieldError;
          res_status 500;
          res_json 500 "No data send to XML renderer, cannot respond";
          log_call "error" "No data send to XML renderer, cannot respond"
            EmptyPipelineResultError ]).
Proof.
  unfold PodcastRevision.render, PodcastRevision.pipeline.
  rewrite podcast_wrap_all. unfold Highland.collect.
  rewrite HighlandFacts.errors_of_Val, HighlandFacts.values_of_Val.
  cbn [List.map app]. rewrite HighlandFacts.map_single.
  destruct (truthy (title (meta p)) && truthy (description (meta p))
            && truthy (link (meta p))) eqn:Hvalid.
  - apply andb_true_iff in Hvalid as [Hvalid Hl].
    apply andb_true_iff in Hvalid as [Ht Hd].
    rewrite (podcast_feedMetaTags_valid _ now σ (List.map Wrap (feed p)) Ht Hd Hl).
    eexists. split; [reflexivity|]. split; [|discriminate].
    intros _. eexists. split; [reflexivity|]. split.
    + unfold item_elements. cbn [resolve elements channel PodcastRevision.wrapInTopLevel
                                 PodcastRevision.cleanNullValues].
      rewrite item_elements_resolve, map_map. reflexivity.
    + cbn [resolve root_attr]. unfold PodcastRevision.wrapInTopLevel,
        PodcastRevision.cleanNullValues.
      cbn [_attr default from_option]. apply (left_id_L ∅ (∪)).
  - rewrite (proj1 (old_feedMetaTags_missing _ now σ (List.map Wrap (feed p)) Hvalid)).
    eexists. split; [reflexivity|]. split; [discriminate|]. intros _. reflexivity.
Qed.

(** The podcast revision's channel is the first revision's channel for the
    same Meta without an image, with the nine iTunes records inserted after
    the seventh record. *)
Theorem podcast_revision_inserts_itunes (m : Meta) (now : clock) (σ : heap)
    (group : list wrapped) (data : list node) :
  truthy (image m) = false ->
  FirstRevision.feedMetaTags m now σ group = Ok data ->
  PodcastRevision.feedMetaTags m now σ group
  = Ok (take 7 data ++ List.map NTag (itunes_tags m) ++ drop 7 data)
  /\ length (itunes_tags m) = 9%nat.
Proof.
  intros Hi H. split; [|reflexivity].
  destruct (truthy (title m) && truthy (description m) && truthy (link m)) eqn:Hvalid.
  - apply andb_true_iff in Hvalid as [Hvalid Hl].
    apply andb_true_iff in Hvalid as [Ht Hd].
    rewrite (first_feedMetaTags_valid _ _ _ _ Ht Hd Hl) in H. injection H as <-.
    rewrite (podcast_feedMetaTags_valid _ _ _ _ Ht Hd Hl). f_equal.
    unfold image_tags. rewrite Hi. cbn [app].
    rewrite !map_app, <- !app_assoc. reflexivity.
  - rewrite (proj2 (old_feedMetaTags_missing _ now σ group Hvalid)) in H.
    discriminate H.
Qed.

Lemma podcast_revision_inserts_itunes_witness :
  exists data,
    FirstRevision.feedMetaTags Fixtures.show Fixtures.noon Fixtures.episodes
                               [Wrap 0%nat]
    = Ok data
    /\ PodcastRevision.feedMetaTags Fixtures.show Fixtures.noon Fixtures.episodes
                                    [Wrap 0%nat]
       = Ok (take 7 data ++ List.map NTag (itunes_tags Fixtures.show) ++ drop 7 data).
Proof.
  eexists. split; [reflexivity|].
  apply (podcast_revision_inserts_itunes Fixtures.show Fixtures.noon
           Fixtures.episodes [Wrap 0%nat] _ eq_refl eq_refl).
Defined.

(** The current [cleanNullValues] is the stricter one: whatever it keeps,
    the podcast revision's loop keeps too, and the two differ exactly on the
    falsy values that are not blank ([0], [false]).  The podcast revision's
    function hands nothing back to its caller. *)
Theorem podcast_revision_cleaning :
  (forall obj k v,
      (PodcastRevision.cleanNullValues obj).1 !! k = Some v <->
      obj !! k = Some v /\ PodcastRevision.blank v = false)
  /\ (forall obj, (PodcastRevision.cleanNullValues obj).2 = None)
  /\ (forall obj, cleanNullValues obj ⊆ (PodcastRevision.cleanNullValues obj).1)
  /\ (forall v, PodcastRevision.blank v = true -> truthy v = false).
Proof.
  assert (Hblank : forall v, PodcastRevision.blank v = true -> truthy v = false).
  { intros v. destruct v; cbn; try discriminate; try reflexivity.
    intros ->. reflexivity. }
  assert (Hlookup : forall obj k v,
      (PodcastRevision.cleanNullValues obj).1 !! k = Some v <->
      obj !! k = Some v /\ PodcastRevision.blank v = false).
  { intros obj k v. cbn [PodcastRevision.cleanNullValues fst].
    apply map_lookup_filter_Some. }
  split; [exact Hlookup|]. split; [reflexivity|]. split; [|exact Hblank].
  intros obj. apply map_subseteq_spec. intros k v Hk.
  apply Hlookup. unfold cleanNullValues in Hk.
  apply map_lookup_filter_Some in Hk as [Hk Hv]. cbn in Hv. split; [exact Hk|].
  destruct (PodcastRevision.blank v) eqn:Hb; [|reflexivity].
  rewrite (Hblank v Hb) in Hv. discriminate Hv.
Qed.

(** ** The first revision's render *)

Lemma existsb_is_image_false (xs : list value) :
  existsb is_image xs = false <-> no_image xs.
Proof.
  unfold no_image. induction xs as [|x xs IH]; cbn.
  - split; [constructor | reflexivity].
  - rewrite orb_false_iff, IH. split.
    + intros [Hx Hxs]. constructor; assumption.
    + intros H. inversion H. auto.
Qed.

Lemma first_wrapInItem_defined (l : loc) (σ : heap) :
  Forall defined (σ l) ->
  exists σ',
    FirstRevision.wrapInItem l σ = Ok (Wrap l, σ')
    /\ forall l', σ' l' =
                  if decide (l = l') then without_image_or_last (σ l) else σ l'.
Proof.
  intros Hd. unfold FirstRevision.wrapInItem, findIndexOfElementInArray.
  destruct (length (σ l) =? 0)%nat eqn:Hlen; cbn [negb].
  - exists σ. split; [reflexivity|]. intros l'.
    apply Nat.eqb_eq in Hlen. apply nil_length_inv in Hlen.
    case_decide; [subst l'; rewrite Hlen|]; reflexivity.
  - destruct (findIndex_from_defined "image" _ Hd 0) as [j Hj]. rewrite Hj. cbn [bind].
    eexists. split; [reflexivity|]. intros l'.
    unfold insert, fn_insert. case_decide; [|reflexivity].
    unfold without_image_or_last.
    apply findIndex_from_Ok in Hj
      as [[-> Hall] | (pre & x & post & Hs & Hpre & Hx & Htx & ->)].
    + rewrite (proj2 (existsb_is_image_false (σ l)))
        by (eapply List.Forall_impl; [|exact Hall]; intros y [_ Hy]; exact Hy).
      apply splice_last.
    + assert (Hpre' : Forall (fun y => is_image y = false) pre)
        by (eapply List.Forall_impl; [|exact Hpre]; intros y [_ Hy]; exact Hy).
      replace (existsb is_image (σ l)) with true.
      * unfold FirstRevision.splice.
        replace (0 + Z.of_nat (length pre) <? 0) with false
          by (symmetry; apply Z.ltb_ge; lia).
        rewrite Hs, Z.add_0_l, splice1_middle, without_first_image_middle; auto.
      * symmetry. rewrite Hs, existsb_app. cbn [existsb].
        unfold is_image at 2. rewrite Htx. apply orb_true_r.
Qed.

Lemma Forall_defined_without_image_or_last (xs : list value) :
  Forall defined xs -> Forall defined (without_image_or_last xs).
Proof.
  intros H. unfold without_image_or_last. destruct (existsb is_image xs).
  - apply Forall_defined_without_first_image. exact H.
  - rewrite removelast_firstn_len. apply Forall_take. exact H.
Qed.

Lemma first_normalize_well_formed (feed : list loc) :
  forall σ,
    well_formed feed σ ->
    (Highland.map FirstRevision.wrapInItem (Highland.of_array feed) σ).1
      = List.map Highland.Val (List.map Wrap feed)
    /\ forall l,
        (Highland.map FirstRevision.wrapInItem (Highland.of_array feed) σ).2 l
          = Nat.iter (count_occ Nat.eq_dec feed l) without_image_or_last (σ l).
Proof.
  induction feed as [|l rest IH]; intros σ Hwf.
  - split; reflexivity.
  - cbn [Highland.of_array List.map Highland.map].
    destruct (first_wrapInItem_defined l σ) as (σ1 & Hw & Hσ1);
      [apply Hwf; left; reflexivity|].
    rewrite Hw.
    assert (Hwf1 : well_formed rest σ1).
    { intros l' Hl'. rewrite Hσ1. case_decide.
      - apply Forall_defined_without_image_or_last, Hwf. left; reflexivity.
      - apply Hwf. right; exact Hl'. }
    destruct (IH σ1 Hwf1) as [Hs Hh]. fold (Highland.of_array rest).
    destruct (Highland.map FirstRevision.wrapInItem (Highland.of_array rest) σ1)
      as [out σ'].
    cbn [fst snd] in *. split; [rewrite Hs; reflexivity|].
    intros l'. rewrite Hh, Hσ1.
    destruct (Nat.eq_dec l l') as [->|Hne].
    + rewrite count_occ_cons_eq by reflexivity.
      rewrite decide_True by reflexivity.
      rewrite Nat.iter_succ_r. reflexivity.
    + rewrite count_occ_cons_neq by exact Hne.
      rewrite decide_False by exact Hne. reflexivity.
Qed.

Lemma first_render_stages (xml : serializer) (p : payload) (now : clock) (σ : heap) :
  FirstRevision.render xml p now σ =
  match FirstRevision.hoistImage (feed p) (meta p) σ with
  | Throw e => Thrown e
  | Ok m =>
      let items :=
        Highland.map FirstRevision.wrapInItem (Highland.of_array (feed p)) σ in
      Settled items.2 m
        match FirstRevision.feedMetaTags m now items.2 (Highland.values_of items.1) with
        | Ok data =>
            flat_map FirstRevision.sendError (Highland.errors_of items.1)
            ++ res_type "text/rss+xml"
               :: match xml (resolve items.2 (wrapInTopLevel data (attr p))) with
                  | Ok _ =>
                      [ res_send (resolve items.2 (wrapInTopLevel data (attr p))) ]
                  | Throw e => FirstRevision.sendError e
                  end
        | Throw e =>
            flat_map FirstRevision.sendError
              (Highland.errors_of items.1 ++ [e; EmptyPipelineResultError])
        end
  end.
Proof.
  unfold FirstRevision.render, FirstRevision.pipeline.
  destruct (FirstRevision.hoistImage (feed p) (meta p) σ) as [m|e]; [|reflexivity].
  destruct (Highland.map FirstRevision.wrapInItem (Highland.of_array (feed p)) σ)
    as [items σ1].
  cbn [fst snd]. unfold Highland.collect.
  rewrite HighlandFacts.map_Err_app, HighlandFacts.map_single.
  cbn [fst snd].
  destruct (FirstRevision.feedMetaTags m now σ1 (Highland.values_of items)) as [data|e].
  - rewrite HighlandFacts.map_Err_app. cbn [Highland.map fst snd bind].
    unfold Highland.errors.
    rewrite HighlandFacts.errors_of_app, HighlandFacts.values_of_app,
      HighlandFacts.errors_of_Err, HighlandFacts.values_of_Err.
    cbn. rewrite List.app_nil_r. reflexivity.
  - change [Highland.Err (A := list node) e]
      with (List.map (Highland.Err (A := list node)) [e]).
    rewrite <- map_app.
    rewrite <- (List.app_nil_r (List.map _ (_ ++ [e]))).
    rewrite HighlandFacts.map_Err_app. cbn [Highland.map fst snd].
    unfold Highland.errors.
    rewrite HighlandFacts.errors_of_app, HighlandFacts.values_of_app,
      HighlandFacts.errors_of_Err, HighlandFacts.values_of_Err.
    cbn [Highland.errors_of Highland.values_of omap app List.map
         Highland.toPromise FirstRevision.respond].
    rewrite List.app_nil_r.
    rewrite !flat_map_app. cbn. rewrite <- app_assoc. reflexivity.
Qed.

Lemma first_hoistImage_found (feed : list loc) (m : Meta) (σ : heap) :
  well_formed feed σ ->
  (forall first rest, feed = first :: rest -> ~ no_image (σ first)) ->
  exists m', FirstRevision.hoistImage feed m σ = Ok m'.
Proof.
  intros Hwf Himg. destruct feed as [|first rest]; [eexists; reflexivity|].
  cbn [FirstRevision.hoistImage]. unfold findIndexOfElementInArray.
  destruct (findIndex_from_defined "image" _ (Hwf first (or_introl eq_refl)) 0)
    as [j Hj].
  rewrite Hj. cbn [bind].
  apply findIndex_from_Ok in Hj
    as [[-> Hall] | (pre & x & post & Hs & Hpre & Hx & Htx & ->)].
  - exfalso. apply (Himg first rest eq_refl).
    eapply List.Forall_impl; [|exact Hall]. intros y [_ Hy]. exact Hy.
  - rewrite Hs, index_middle, (member_defined _ _ Hx). cbn [bind].
    destruct (truthy (FirstRevision.get_url (get x "image"))); eexists; reflexivity.
Qed.

(** In the first revision a render that gets past the image step shortens
    the caller's arrays unconditionally: on a feed whose entries can be read
    and whose first FeedItem has an image entry the call settles, and every
    array has lost, once per occurrence in the feed, its first image entry
    or, failing that, its last entry; so every non-empty array that occurs
    once in the feed is exactly one entry shorter. *)
Theorem first_revision_render_shortens (xml : serializer) (p : payload) (now : clock) (σ : heap) :
  well_formed (feed p) σ ->
  (forall first rest, feed p = first :: rest -> ~ no_image (σ first)) ->
  exists σ' m calls,
    FirstRevision.render xml p now σ = Settled σ' m calls
    /\ (forall l,
          σ' l = Nat.iter (count_occ Nat.eq_dec (feed p) l)
                          without_image_or_last (σ l))
    /\ (List.NoDup (feed p) ->
        forall l, In l (feed p) -> σ l <> [] ->
                  S (length (σ' l)) = length (σ l)).
Proof.
  intros Hwf Himg. rewrite first_render_stages.
  destruct (first_hoistImage_found _ (meta p) _ Hwf Himg) as [m ->].
  destruct (first_normalize_well_formed _ _ Hwf) as [_ Hh].
  cbn zeta. eexists _, _, _. split; [reflexivity|]. split; [exact Hh|].
  intros Hnd l Hl Hne. rewrite Hh.
  rewrite (proj1 (NoDup_count_occ' Nat.eq_dec (feed p)) Hnd l Hl). cbn [Nat.iter nat_rect].
  unfold without_image_or_last. destruct (existsb is_image (σ l)) eqn:Hex.
  - rewrite without_first_image_length, Hex.
    destruct (σ l); [congruence | cbn; lia].
  - rewrite removelast_firstn_len, length_take.
    destruct (σ l); [congruence | cbn; lia].
Qed.

Lemma first_revision_render_shortens_witness :
  well_formed [0%nat; 1%nat] Fixtures.illustrated
  /\ exists σ' m calls,
       FirstRevision.render Fixtures.xml
         {| feed := [0%nat; 1%nat]; meta := Fixtures.show; attr := None |}
         Fixtures.noon Fixtures.illustrated
       = Settled σ' m calls
       /\ S (length (σ' 0%nat)) = length (Fixtures.illustrated 0%nat).
Proof.
  assert (Hwf : well_formed [0%nat; 1%nat] Fixtures.illustrated).
  { intros l [<-|[<-|[]]]; repeat constructor. }
  split; [exact Hwf|].
  destruct (first_revision_render_shortens Fixtures.xml
              {| feed := [0%nat; 1%nat]; meta := Fixtures.show; attr := None |}
              Fixtures.noon Fixtures.illustrated Hwf)
    as (σ' & m & calls & Hr & _ & Hlen).
  { intros first rest [= <- <-] Hno.
    inversion Hno as [|? ? _ Hrest]. inversion Hrest as [|? ? Himg _].
    discriminate Himg. }
  exists σ', m, calls. split; [exact Hr|].
  apply Hlen.
  - cbn. apply List.NoDup_cons; [intros [H|[]]; discriminate H|].
    apply List.NoDup_cons; [intros []|]. apply List.NoDup_nil.
  - left. reflexivity.
  - discriminate.
Defined.

(** Witnesses for the properties above that are stated as equivalences. *)
Lemma cleanNullValues_only_deletes_witness :
  cleanNullValues {[ "version" := VNum 0; "xmlns:dc" := VStr "x" ]} !! "xmlns:dc"
  = Some (VStr "x").
Proof.
  apply (proj1 cleanNullValues_only_deletes). split; reflexivity.
Defined.

Lemma podcast_revision_cleaning_witness :
  (PodcastRevision.cleanNullValues {[ "version" := VNum 0 ]}).1 !! "version"
  = Some (VNum 0).
Proof.
  apply (proj1 podcast_revision_cleaning). split; reflexivity.
Defined.

Lemma podcast_revision_render_witness :
  exists calls body,
    PodcastRevision.render Fixtures.xml
      {| feed := [0%nat; 1%nat]; meta := Fixtures.show; attr := None |}
      Fixtures.noon Fixtures.broken
    = Settled Fixtures.broken Fixtures.show calls
    /\ calls =
       [ res_type "text/rss+xml";
         res_status 500;
         res_json 500 "Cannot convert undefined or null to object";
         log_call "error" "Cannot convert undefined or null to object"
           (SerializerError "Cannot convert undefined or null to object") ]
    /\ item_elements body = [ [ tag "title" (VStr "Ep1") ]; [ VNull ] ].
Proof.
  destruct (podcast_revision_render Fixtures.xml
              {| feed := [0%nat; 1%nat]; meta := Fixtures.show; attr := None |}
              Fixtures.noon Fixtures.broken)
    as (calls & Hr & Hvalid & _).
  destruct (Hvalid eq_refl) as (body & Hcalls & Hitems & _).
  exists calls, body. split; [exact Hr|]. split; [|exact Hitems].
  unfold Fixtures.xml in Hcalls. rewrite Hitems in Hcalls. exact Hcalls.
Defined.
